(** * Verification of the autonomous action loop of the web agent

    A shallow embedding of [src/autonomous_web_agent.py]: the decision step
    ([MockMultiOnClient.determine_action]), the executor
    ([MockMultiOnClient.execute_action]), one step of the agent
    ([MockMultiOnClient.execute_task]) and the session driver
    ([autonomous_process]).

    The browser (Playwright) and the language model (OpenAI) are external
    services.  They are modelled as oracles: records holding, for each
    operation the code performs, the value it returns or the exception it
    raises.  Every theorem quantifies over all oracles.  An exception is
    an instance of [Exception], identified by its text [str(e)].

    Python [str] values are modelled by [string].  Characters are read as
    code points below 256.  [lower] is Python's [str.lower] on these code
    points.  [upper] maps the letters a-z and leaves the other characters;
    Python's [str.upper] differs from it on letters outside ASCII only, and
    the code looks at the upper-cased directive only for keywords made of
    the letters A-Z and the underscore. *)

From Stdlib Require Import ZArith List String Ascii Bool Lia DecimalString.
From Equations Require Import Equations.
From Equations.Prop Require Import Logic.
Import ListNotations.
Local Open Scope string_scope.
Local Open Scope Z_scope.

(** ** Python string operations *)

Module PyStr.

(** [c.isspace()] on the code points below 256. *)
Definition isspace (c : ascii) : bool :=
  let n := N_of_ascii c in
  ((9 <=? n) && (n <=? 13) || (28 <=? n) && (n <=? 32)
   || (n =? 133) || (n =? 160))%N.

Definition upper_char (c : ascii) : ascii :=
  let n := N_of_ascii c in
  if ((97 <=? n) && (n <=? 122))%N then ascii_of_N (n - 32) else c.

(** [c.lower()]: the letters A-Z and the capital letters at the code
    points 192 to 222 (215, the multiplication sign, is no letter) move up
    by 32; every other code point below 256 is its own lower case. *)
Definition lower_char (c : ascii) : ascii :=
  let n := N_of_ascii c in
  if ((65 <=? n) && (n <=? 90)
      || (192 <=? n) && (n <=? 222) && negb (n =? 215))%N
  then ascii_of_N (n + 32) else c.

Fixpoint map_chars (f : ascii -> ascii) (s : string) : string :=
  match s with
  | EmptyString => EmptyString
  | String c s' => String (f c) (map_chars f s')
  end.

(** [s.upper()] and [s.lower()]. *)
Definition upper : string -> string := map_chars upper_char.
Definition lower : string -> string := map_chars lower_char.

(** [s.startswith(p)]. *)
Definition startswith (p s : string) : bool := String.prefix p s.

(** [sub in s]. *)
Fixpoint contains (sub s : string) : bool :=
  match s with
  | EmptyString => String.prefix sub EmptyString
  | String _ s' => String.prefix sub s || contains sub s'
  end.

Definition is_empty (s : string) : bool :=
  match s with EmptyString => true | _ => false end.

Definition snoc (s : string) (c : ascii) : string := s ++ String c EmptyString.

(** [s.split(sep)] for a non-empty separator: the pieces between the
    occurrences of [sep], found left to right without overlap.  [skip]
    counts the characters of a separator still to be dropped, [cur] is the
    piece being collected. *)
Fixpoint split_go (sep : string) (skip : nat) (cur s : string) : list string :=
  match s with
  | EmptyString => [cur]
  | String c s' =>
      match skip with
      | S k => split_go sep k cur s'
      | O =>
          if String.prefix sep s
          then cur :: split_go sep (String.length sep - 1) EmptyString s'
          else split_go sep 0 (snoc cur c) s'
      end
  end.

Definition split (sep s : string) : list string := split_go sep 0 EmptyString s.

(** [s.split()]: the maximal runs of non-whitespace characters. *)
Fixpoint split_ws_go (cur s : string) : list string :=
  match s with
  | EmptyString => if is_empty cur then [] else [cur]
  | String c s' =>
      if isspace c
      then (if is_empty cur then split_ws_go EmptyString s'
            else cur :: split_ws_go EmptyString s')
      else split_ws_go (snoc cur c) s'
  end.

Definition split_ws (s : string) : list string := split_ws_go EmptyString s.

(** [sep.join(l)]. *)
Definition join (sep : string) (l : list string) : string := String.concat sep l.

Fixpoint lstrip (s : string) : string :=
  match s with
  | EmptyString => EmptyString
  | String c s' => if isspace c then lstrip s' else s
  end.

Fixpoint rstrip (s : string) : string :=
  match s with
  | EmptyString => EmptyString
  | String c s' =>
      let r := rstrip s' in
      if isspace c && is_empty r then EmptyString else String c r
  end.

(** [s.strip()]. *)
Definition strip (s : string) : string := rstrip (lstrip s).

(** [s[n:]] and [s[:n]] for [0 <= n]. *)
Fixpoint slice_from (n : nat) (s : string) : string :=
  match n, s with
  | O, _ => s
  | S k, String _ s' => slice_from k s'
  | S _, EmptyString => EmptyString
  end.

Fixpoint slice_to (n : nat) (s : string) : string :=
  match n, s with
  | S k, String c s' => String c (slice_to k s')
  | _, _ => EmptyString
  end.

(** [l[1]] after a test that makes it exist. *)
Definition item1 (l : list string) : string := nth 1 l EmptyString.

End PyStr.

(** ** Exceptions, the browser oracle and the effect monad *)

(** A Python call either returns a value or raises an exception; [e] is the
    text [str(e)] of the exception. *)
Inductive result (A : Type) : Type :=
| Ok (a : A)
| Raise (e : string).
Arguments Ok {A} a.
Arguments Raise {A} e.

(** An element handle: what each of its operations answers. *)
Record element : Type := mk_element {
  el_text_content : result string;
  el_click : result unit;
  el_fill : string -> result unit
}.

(** The page handle [self.page] during one call of [execute_action]. *)
Record page : Type := mk_page {
  pg_query_selector_all : string -> result (list element);
  pg_query_selector : string -> result (option element);
  pg_wait_for_timeout : Z -> result unit;
  pg_scroll_by : Z -> result unit;  (* page.evaluate("window.scrollBy(0, n)") *)
  pg_goto : string -> result unit;
  pg_keyboard_press : string -> result unit
}.

(** One entry of an element list sent to the model. *)
Record element_info : Type := mk_element_info {
  ei_tag : string; ei_text : string; ei_type : string;
  ei_name : string; ei_id : string; ei_href : string
}.

(** What the prompt of [determine_action] is built from. *)
Record prompt : Type := mk_prompt {
  p_task : string;
  p_step_count : Z;
  p_current_url : option string;
  p_visible_text : string;
  p_interactive_elements : list element_info
}.

(** The operations performed on the outside world. *)
Inductive call : Type :=
| QuerySelectorAll (selector : string)
| QuerySelector (selector : string)
| TextContent (el : element)
| Click (el : element)
| Fill (el : element) (value : string)
| WaitForTimeout (ms : Z)
| ScrollBy (dy : Z)
| Goto (url : string)
| KeyboardPress (key : string)
| Screenshot
| Content
| EvaluateVisibleText
| EvaluateInteractiveElements
| ChatCompletion (p : prompt)
| LaunchBrowser
| CloseBrowser.

(** A performed operation and the exception it raised, if any. *)
Record event : Type := mk_event {
  ev_call : call;
  ev_fault : option string
}.

(** The attributes of [MockMultiOnClient] the loop reads and writes.
    [page_open] says whether [self.page] is set. *)
Record agent : Type := mk_agent {
  page_open : bool;
  session_id : option string;
  current_url : option string;
  screenshot : option string;
  step_count : Z
}.

Definition new_agent : agent :=
  {| page_open := false; session_id := None; current_url := None;
     screenshot := None; step_count := 0 |}.

Definition set_current_url (url : string) (a : agent) : agent :=
  {| page_open := page_open a; session_id := session_id a;
     current_url := Some url; screenshot := screenshot a;
     step_count := step_count a |}.

Definition set_step_count (n : Z) (a : agent) : agent :=
  {| page_open := page_open a; session_id := session_id a;
     current_url := current_url a; screenshot := screenshot a;
     step_count := n |}.

(** Computations on the agent: they read and write its attributes, log the
    operations they perform, and return or raise.  Attribute writes and the
    log survive an exception, as in Python. *)
Definition M (A : Type) : Type := agent -> result A * agent * list event.

Definition ret {A} (a : A) : M A := fun s => (Ok a, s, []).

Definition raise {A} (e : string) : M A := fun s => (Raise e, s, []).

Definition bind {A B} (m : M A) (k : A -> M B) : M B :=
  fun s =>
    match m s with
    | (Ok a, s1, l1) => let '(r, s2, l2) := k a s1 in (r, s2, (l1 ++ l2)%list)
    | (Raise e, s1, l1) => (Raise e, s1, l1)
    end.

(** [try: m  except Exception as e: h e]. *)
Definition try_except {A} (m : M A) (h : string -> M A) : M A :=
  fun s =>
    match m s with
    | (Ok a, s1, l1) => (Ok a, s1, l1)
    | (Raise e, s1, l1) => let '(r, s2, l2) := h e s1 in (r, s2, (l1 ++ l2)%list)
    end.

Definition fault_of {A} (r : result A) : option string :=
  match r with Ok _ => None | Raise e => Some e end.

(** Performing operation [c], whose answer is [r]. *)
Definition perform {A} (c : call) (r : result A) : M A :=
  fun s => (r, s, [{| ev_call := c; ev_fault := fault_of r |}]).

Definition get {A} (f : agent -> A) : M A := fun s => (Ok (f s), s, []).

Definition modify (f : agent -> agent) : M unit := fun s => (Ok tt, f s, []).

Declare Scope py_scope.
Delimit Scope py_scope with py.
Notation "x <- m ;; k" := (bind m (fun x => k))
  (at level 61, m at next level, right associativity) : py_scope.
Notation "m ;; k" := (bind m (fun _ => k))
  (at level 61, right associativity) : py_scope.
Local Open Scope py_scope.

(** ** The executor: [MockMultiOnClient.execute_action] *)

Inductive status : Type := CONTINUE | COMPLETE | FAILED | ERROR.

Definition status_eqb (a b : status) : bool :=
  match a, b with
  | CONTINUE, CONTINUE | COMPLETE, COMPLETE | FAILED, FAILED | ERROR, ERROR => true
  | _, _ => false
  end.

(** The dictionary [{"status": ..., "message": ...}]. *)
Record response : Type := mk_response {
  r_status : status;
  r_message : string
}.

Section Executor.

Import PyStr.

Variable pg : page.

Definition query_selector_all (selector : string) : M (list element) :=
  perform (QuerySelectorAll selector) (pg_query_selector_all pg selector).
Definition query_selector (selector : string) : M (option element) :=
  perform (QuerySelector selector) (pg_query_selector pg selector).
Definition wait_for_timeout (ms : Z) : M unit :=
  perform (WaitForTimeout ms) (pg_wait_for_timeout pg ms).
Definition scroll_by (dy : Z) : M unit :=
  perform (ScrollBy dy) (pg_scroll_by pg dy).
Definition goto (url : string) : M unit :=
  perform (Goto url) (pg_goto pg url).
Definition keyboard_press (key : string) : M unit :=
  perform (KeyboardPress key) (pg_keyboard_press pg key).
Definition text_content (el : element) : M string :=
  perform (TextContent el) (el_text_content el).
Definition click (el : element) : M unit :=
  perform (Click el) (el_click el).
Definition fill (el : element) (value : string) : M unit :=
  perform (Fill el value) (el_fill el value).

(** The text between the first two single quotes, when the directive has
    a quote: [action.split("'")[1]] under [if "'" in action]. *)
Definition quoted_target (action : string) : option string :=
  if contains "'" action then Some (item1 (split "'" action)) else None.

(** [for el in els]: click the first element whose text contains the
    target, ignoring case.  [None] when the loop ends without a return. *)
Fixpoint click_matching (what : string) (settle : Z) (target : string)
    (els : list element) : M (option response) :=
  match els with
  | [] => ret None
  | el :: rest =>
      text <- text_content el ;;
      if contains (lower target) (lower text)
      then click el ;; wait_for_timeout settle ;;
           ret (Some {| r_status := CONTINUE;
                        r_message := "Clicked " ++ what ++ ": " ++ target |})
      else click_matching what settle target rest
  end.

Definition no_suitable_element : response :=
  {| r_status := CONTINUE; r_message := "No suitable element found to click" |}.

(** The [if "button" in action.lower()] block, given the target text. *)
Definition click_button (target : option string) : M response :=
  found <- match target with
           | Some button_text =>
               buttons <- query_selector_all "button" ;;
               click_matching "button" 2000 button_text buttons
           | None => ret None
           end ;;
  match found with
  | Some r => ret r
  | None =>
      button <- query_selector "button" ;;
      match button with
      | Some b => click b ;; wait_for_timeout 2000 ;;
                  ret {| r_status := CONTINUE; r_message := "Clicked first button" |}
      | None => ret no_suitable_element
      end
  end.

(** The [elif "link" in action.lower()] block, given the target text. *)
Definition click_link (target : option string) : M response :=
  found <- match target with
           | Some link_text =>
               links <- query_selector_all "a" ;;
               click_matching "link" 3000 link_text links
           | None => ret None
           end ;;
  match found with
  | Some r => ret r
  | None =>
      link <- query_selector "a" ;;
      match link with
      | Some l => click l ;; wait_for_timeout 3000 ;;
                  ret {| r_status := CONTINUE; r_message := "Clicked first link" |}
      | None => ret no_suitable_element
      end
  end.

(** The body of the [try] of the CLICK branch. *)
Definition click_body (action : string) : M response :=
  if contains "button" (lower action) then click_button (quoted_target action)
  else if contains "link" (lower action) then click_link (quoted_target action)
  else ret no_suitable_element.

Definition fill_selectors (field_name : string) : list string :=
  [ "input[name='" ++ field_name ++ "']";
    "input[id='" ++ field_name ++ "']";
    "input[type='" ++ field_name ++ "']";
    if (field_name =? "email")%string then "input[type='email']" else EmptyString;
    if ((field_name =? "text") || (field_name =? "name"))%string
    then "input[type='text']" else EmptyString ].

(** [for selector in selectors]. *)
Fixpoint fill_first_match (field_name value : string) (selectors : list string)
    : M (option response) :=
  match selectors with
  | [] => ret None
  | selector :: rest =>
      if is_empty selector then fill_first_match field_name value rest
      else
        el <- query_selector selector ;;
        match el with
        | Some e =>
            fill e value ;; wait_for_timeout 1000 ;;
            ret (Some {| r_status := CONTINUE;
                         r_message := "Filled " ++ field_name ++ " with " ++ value |})
        | None => fill_first_match field_name value rest
        end
  end.

Definition could_not_parse_fill : response :=
  {| r_status := CONTINUE; r_message := "Could not parse fill command" |}.

(** The [if len(parts) >= 3] block, given field name and value. *)
Definition fill_field (field_name value : string) : M response :=
  found <- fill_first_match field_name value (fill_selectors field_name) ;;
  match found with
  | Some r => ret r
  | None =>
      input_field <- query_selector "input[type='text'], input[type='email'], textarea" ;;
      match input_field with
      | Some e =>
          fill e value ;; wait_for_timeout 1000 ;;
          ret {| r_status := CONTINUE; r_message := "Filled field with " ++ value |}
      | None => ret could_not_parse_fill
      end
  end.

(** The body of the [try] of the FILL branch. *)
Definition fill_body (action : string) : M response :=
  let parts := split_ws action in
  if (3 <=? List.length parts)%nat
  then fill_field (nth 1 parts EmptyString) (join " " (skipn 2 parts))
  else ret could_not_parse_fill.

Definition scroll_body : M response :=
  scroll_by 500 ;; wait_for_timeout 2000 ;;
  ret {| r_status := CONTINUE; r_message := "Scrolled down to explore more content" |}.

(** The URL the NAVIGATE branch computes under [if "http" in action]. *)
Definition navigate_url (action : string) : string :=
  let url := item1 (split "http" action) in
  if negb (startswith "://" url) then "http" ++ url else url.

(** Navigation to [url]: [current_url] is written last. *)
Definition navigate_to (url : string) : M response :=
  goto url ;; wait_for_timeout 3000 ;;
  modify (set_current_url url) ;;
  ret {| r_status := CONTINUE; r_message := "Navigated to " ++ url |}.

Definition invalid_navigation : response :=
  {| r_status := CONTINUE; r_message := "Invalid navigation URL" |}.

(** The body of the [try] of the NAVIGATE branch. *)
Definition navigate_body (action : string) : M response :=
  if contains "http" action then navigate_to (navigate_url action)
  else ret invalid_navigation.

(** The body of the [try] of the SEARCH branch. *)
Definition search_body (action : string) : M response :=
  let search_text := strip (slice_from 6 action) in
  search_input <- query_selector
    "input[type='search'], input[name*='search'], input[placeholder*='search']" ;;
  match search_input with
  | Some e =>
      fill e search_text ;; keyboard_press "Enter" ;; wait_for_timeout 3000 ;;
      ret {| r_status := CONTINUE; r_message := "Searched for: " ++ search_text |}
  | None =>
      scroll_by 300 ;; wait_for_timeout 1000 ;;
      ret {| r_status := CONTINUE; r_message := "Looking for: " ++ search_text |}
  end.

(** The final [else]: a directive outside the grammar. *)
Definition unknown_body (action : string) : M response :=
  n <- get step_count ;;
  if n <=? 3
  then scroll_by 400 ;; wait_for_timeout 1500 ;;
       ret {| r_status := CONTINUE; r_message := "Exploring page: " ++ action |}
  else wait_for_timeout 1000 ;;
       ret {| r_status := CONTINUE; r_message := "Executed: " ++ action |}.

(** [except Exception as e: return {"status": "ERROR", "message": f"<what>{str(e)}"}]. *)
Definition report_error (what e : string) : M response :=
  ret {| r_status := ERROR; r_message := what ++ e |}.

(** The body of the outer [try]: the chain of tests on the directive. *)
Definition dispatch (action : string) : M response :=
  let action_upper := upper action in
  if contains "TASK_COMPLETE" action_upper then
    ret {| r_status := COMPLETE; r_message := "Task completed successfully" |}
  else if contains "TASK_FAILED" action_upper then
    ret {| r_status := FAILED; r_message := "Task failed - could not complete" |}
  else if startswith "CLICK" action_upper then
    try_except (click_body action) (report_error "Click failed: ")
  else if startswith "FILL" action_upper then
    try_except (fill_body action) (report_error "Fill failed: ")
  else if startswith "SCROLL" action_upper then
    scroll_body
  else if startswith "NAVIGATE" action_upper then
    try_except (navigate_body action) (report_error "Navigation failed: ")
  else if startswith "SEARCH" action_upper then
    try_except (search_body action) (report_error "Search failed: ")
  else unknown_body action.

Definition execute_action (action : string) : M response :=
  try_except (dispatch action) (report_error "Action execution failed: ").

End Executor.

(** ** The decision step: [MockMultiOnClient.determine_action] *)

(** What the outside world answers during one call of [execute_task].
    [env_chat_completion] gives, for a prompt, the [message.content] of each
    entry of [response.choices] ([None] for a missing content), or the
    exception of the call. *)
Record step_env : Type := mk_step_env {
  env_screenshot_before : result string;
  env_content : result string;
  env_visible_text : result string;
  env_interactive_elements : result (list element_info);
  env_chat_completion : prompt -> result (list (option string));
  env_page : page;
  env_screenshot_after : result string
}.

(** [response.choices[0].message.content.strip()]. *)
Definition first_choice (choices : list (option string)) : M string :=
  match choices with
  | [] => raise "list index out of range"
  | None :: _ => raise "'NoneType' object has no attribute 'strip'"
  | Some content :: _ => ret (PyStr.strip content)
  end.

(** The prompt: task, step count and URL of the agent, the visible text cut to
    1500 characters and the first 15 interactive elements. *)
Definition build_prompt (task : string) (ag : agent) (visible_text : string)
    (interactive_elements : list element_info) : prompt :=
  {| p_task := task; p_step_count := step_count ag;
     p_current_url := current_url ag;
     p_visible_text := PyStr.slice_to 1500 visible_text;
     p_interactive_elements := firstn 15 interactive_elements |}.

Definition determine_action (env : step_env) (task page_content : string) : M string :=
  visible_text <- perform EvaluateVisibleText (env_visible_text env) ;;
  interactive_elements <-
    perform EvaluateInteractiveElements (env_interactive_elements env) ;;
  prompt <- get (fun ag => build_prompt task ag visible_text interactive_elements) ;;
  n <- get step_count ;;
  try_except
    (choices <- perform (ChatCompletion prompt) (env_chat_completion env prompt) ;;
     action <- first_choice choices ;;
     if (8 <=? n) && negb (PyStr.contains "TASK_COMPLETE" action)
        && negb (PyStr.contains "TASK_FAILED" action)
     then ret "TASK_COMPLETE"
     else ret action)
    (fun _ => ret "TASK_FAILED").

(** ** One step: [MockMultiOnClient.execute_task] *)

(** [take_screenshot]: the encoded picture of an open page, else the empty text. *)
Definition take_screenshot (shot : result string) : M string :=
  open <- get page_open ;;
  if open then perform Screenshot shot else ret EmptyString.

(** The dictionary [execute_task] returns. *)
Record task_result : Type := mk_task_result {
  tr_step : Z;
  tr_action : string;
  tr_url : option string;
  tr_screenshot : string;
  tr_status : status;
  tr_message : string
}.

Definition execute_task (env : step_env) (task : string) : M task_result :=
  open <- get page_open ;;
  if negb open then raise "No active session. Call create_session first."
  else
    _ <- take_screenshot (env_screenshot_before env) ;;
    page_content <- perform Content (env_content env) ;;
    action <- determine_action env task page_content ;;
    result <- execute_action (env_page env) action ;;
    modify (fun a => set_step_count (step_count a + 1) a) ;;
    n <- get step_count ;;
    url <- get current_url ;;
    shot <- take_screenshot (env_screenshot_after env) ;;
    ret {| tr_step := n; tr_action := action; tr_url := url;
           tr_screenshot := shot; tr_status := r_status result;
           tr_message := r_message result |}.

(** ** Sessions: [create_session] and [close_session] *)

Record session_env : Type := mk_session_env {
  se_launch : result unit;      (* init_browser *)
  se_page : page;
  se_time : Z;                  (* int(time.time()) *)
  se_screenshot : result string
}.

(** The dictionary [create_session] returns. *)
Record session : Type := mk_session {
  s_session_id : string;
  s_url : string;
  s_screenshot : string;
  s_status : status
}.

Definition decimal (n : Z) : string := NilZero.string_of_int (Z.to_int n).

Definition set_page_open (b : bool) (a : agent) : agent :=
  {| page_open := b; session_id := session_id a; current_url := current_url a;
     screenshot := screenshot a; step_count := step_count a |}.

Definition create_session (se : session_env) (url : string) : M session :=
  open <- get page_open ;;
  (if negb open
   then perform LaunchBrowser (se_launch se) ;; modify (set_page_open true)
   else ret tt) ;;
  goto (se_page se) url ;;
  wait_for_timeout (se_page se) 2000 ;;
  let id := "session_" ++ decimal (se_time se) in
  modify (fun a => {| page_open := page_open a; session_id := Some id;
                      current_url := Some url; screenshot := screenshot a;
                      step_count := step_count a |}) ;;
  shot <- take_screenshot (se_screenshot se) ;;
  modify (fun a => {| page_open := page_open a; session_id := session_id a;
                      current_url := current_url a; screenshot := Some shot;
                      step_count := step_count a |}) ;;
  ret {| s_session_id := id; s_url := url; s_screenshot := shot;
         s_status := CONTINUE |}.

Definition close_session (closing : result unit) : M unit :=
  perform CloseBrowser closing ;;
  modify (set_page_open false).

(** ** The session driver: [autonomous_process] *)

(** An entry of [steps]. *)
Record step_record : Type := mk_step_record {
  sr_step_number : Z;
  sr_action : string;
  sr_status : status;
  sr_screenshot : string;
  sr_message : string
}.

(** The local variables of the loop.  [ls_iterations] is bookkeeping of the
    model, not a variable of the source: it counts the executions of the
    loop body. *)
Record loop_state : Type := mk_loop_state {
  ls_steps : list step_record;
  ls_step : Z;
  ls_status : status;
  ls_last_action : string;
  ls_repeated_actions : Z;
  ls_agent : agent;
  ls_iterations : nat
}.

Definition override (st : status) (msg : string) (r : task_result) : task_result :=
  {| tr_step := tr_step r; tr_action := tr_action r; tr_url := tr_url r;
     tr_screenshot := tr_screenshot r; tr_status := st; tr_message := msg |}.

(** The check for repeated actions: the result, [last_action] and
    [repeated_actions] after it. *)
Definition check_repeated (last_action : string) (repeated_actions : Z)
    (result : task_result) : task_result * string * Z :=
  if (tr_action result =? last_action)%string then
    let repeated_actions := repeated_actions + 1 in
    if (3 <=? repeated_actions) && negb (PyStr.contains "SCROLL" (tr_action result))
    then (override COMPLETE "Stopping due to repeated actions" result,
          last_action, repeated_actions)
    else if (4 <=? repeated_actions) && PyStr.contains "SCROLL" (tr_action result)
    then (override COMPLETE "Finished exploring page content" result,
          last_action, repeated_actions)
    else (result, last_action, repeated_actions)
  else (result, tr_action result, 0).

(** [status in ["COMPLETE", "FAILED", "ERROR"]]. *)
Definition is_terminal (st : status) : bool :=
  match st with CONTINUE => false | _ => true end.

(** One execution of the loop body; the boolean says whether it ended in
    [break]. *)
Definition loop_body (env : step_env) (task : string) (ls : loop_state)
    : loop_state * bool :=
  match execute_task env task (ls_agent ls) with
  | (Ok result, ag, _) =>
      let '(result, last_action, repeated_actions) :=
        check_repeated (ls_last_action ls) (ls_repeated_actions ls) result in
      let rec :=
        {| sr_step_number := ls_step ls; sr_action := tr_action result;
           sr_status := tr_status result; sr_screenshot := tr_screenshot result;
           sr_message := tr_message result |} in
      ({| ls_steps := (ls_steps ls ++ [rec])%list;
          ls_step := ls_step ls + 1;
          ls_status := tr_status result;
          ls_last_action := last_action;
          ls_repeated_actions := repeated_actions;
          ls_agent := ag;
          ls_iterations := S (ls_iterations ls) |},
       is_terminal (tr_status result))
  | (Raise e, ag, _) =>
      let rec :=
        {| sr_step_number := ls_step ls; sr_action := "ERROR";
           sr_status := ERROR; sr_screenshot := EmptyString;
           sr_message := "Error: " ++ e |} in
      ({| ls_steps := (ls_steps ls ++ [rec])%list;
          ls_step := ls_step ls;
          ls_status := ERROR;
          ls_last_action := ls_last_action ls;
          ls_repeated_actions := ls_repeated_actions ls;
          ls_agent := ag;
          ls_iterations := S (ls_iterations ls) |},
       true)
  end.

(** [status == "CONTINUE" and step <= max_steps]. *)
Definition loop_condition (max_steps : Z) (ls : loop_state) : bool :=
  status_eqb (ls_status ls) CONTINUE && (ls_step ls <=? max_steps).

(** The [while] loop.  [envs step] is what the outside world answers during
    the iteration in which the loop variable has value [step]. *)
Equations? while_loop (envs : Z -> step_env) (task : string) (max_steps : Z)
    (ls : loop_state) : loop_state
    by wf (Z.to_nat (max_steps + 1 - ls_step ls)) lt :=
  while_loop envs task max_steps ls with inspect (loop_condition max_steps ls) => {
    | exist _ false _ => ls
    | exist _ true Hc with inspect (loop_body (envs (ls_step ls)) task ls) => {
        | exist _ (ls', true) _ => ls'
        | exist _ (ls', false) Hb => while_loop envs task max_steps ls' } }.
Proof.
  assert (Hnext : ls_step ls' = ls_step ls + 1).
  { unfold loop_body in Hb.
    destruct (execute_task (envs (ls_step ls)) task (ls_agent ls))
      as [[[result|e] ag] l]; [|discriminate].
    destruct (check_repeated _ _ result) as [[r la] ra].
    inversion Hb. reflexivity. }
  unfold loop_condition in Hc. apply andb_prop in Hc. destruct Hc as [_ Hc].
  apply Z.leb_le in Hc. lia.
Qed.

(** All the outside world answers during one run. *)
Record world : Type := mk_world {
  w_session : session_env;
  w_steps : Z -> step_env;
  w_close : result unit
}.

(** The dictionary [autonomous_process] returns. *)
Inductive reply : Type :=
| Success (task url : string) (steps : list step_record)
          (final_status : status) (total_steps : Z)
| Failure (error : string).

Definition initial_state (url : string) (s : session) (ag : agent) : loop_state :=
  {| ls_steps := [ {| sr_step_number := 0;
                      sr_action := "Started session on " ++ url;
                      sr_status := CONTINUE;
                      sr_screenshot := s_screenshot s;
                      sr_message := "Session initialized" |} ];
     ls_step := 1;
     ls_status := CONTINUE;
     ls_last_action := EmptyString;
     ls_repeated_actions := 0;
     ls_agent := ag;
     ls_iterations := 0 |}.

(** The loop of a session that has been created. *)
Definition session_loop (w : world) (url task : string) (max_steps : Z)
    (s : session) (ag : agent) : loop_state :=
  while_loop (w_steps w) task max_steps (initial_state url s ag).

(** [autonomous_process]: the reply it returns, or the exception that leaves
    it (which only the [finally] clause can raise). *)
Definition autonomous_process (w : world) (url task : string) (max_steps : Z)
    : result reply :=
  let '(created, ag, _) := create_session (w_session w) url new_agent in
  let '(answer, ag) :=
    match created with
    | Ok s =>
        let ls := session_loop w url task max_steps s ag in
        (Success task url (ls_steps ls) (ls_status ls)
                 (Z.of_nat (List.length (ls_steps ls)) - 1),
         ls_agent ls)
    | Raise e => (Failure e, ag)
    end in
  match close_session (w_close w) ag with
  | (Ok _, _, _) => Ok answer
  | (Raise e, _, _) => Raise e
  end.

(** ** Concrete pages and worlds used in examples *)

Definition ok_element (text : string) : element :=
  {| el_text_content := Ok text; el_click := Ok tt; el_fill := fun _ => Ok tt |}.

(** A page on which every operation succeeds and no selector matches. *)
Definition empty_page : page :=
  {| pg_query_selector_all := fun _ => Ok [];
     pg_query_selector := fun _ => Ok None;
     pg_wait_for_timeout := fun _ => Ok tt;
     pg_scroll_by := fun _ => Ok tt;
     pg_goto := fun _ => Ok tt;
     pg_keyboard_press := fun _ => Ok tt |}.

(** The same page, but navigation fails. *)
Definition offline_page : page :=
  {| pg_query_selector_all := fun _ => Ok [];
     pg_query_selector := fun _ => Ok None;
     pg_wait_for_timeout := fun _ => Ok tt;
     pg_scroll_by := fun _ => Ok tt;
     pg_goto := fun _ => Raise "net::ERR_NAME_NOT_RESOLVED";
     pg_keyboard_press := fun _ => Ok tt |}.

(** A step in which the model answers [answer] and the page is [pg]. *)
Definition answering (answer : string) (pg : page) : step_env :=
  {| env_screenshot_before := Ok "before"; env_content := Ok "<html></html>";
     env_visible_text := Ok "text"; env_interactive_elements := Ok [];
     env_chat_completion := fun _ => Ok [Some answer];
     env_page := pg; env_screenshot_after := Ok "after" |}.

(** A step in which the call of the model fails. *)
Definition model_down : step_env :=
  {| env_screenshot_before := Ok "before"; env_content := Ok "<html></html>";
     env_visible_text := Ok "text"; env_interactive_elements := Ok [];
     env_chat_completion := fun _ => Raise "Connection error.";
     env_page := empty_page; env_screenshot_after := Ok "after" |}.

(** A step in which the page handle is lost before the model is asked. *)
Definition page_lost : step_env :=
  {| env_screenshot_before := Ok "before";
     env_content := Raise "Target closed";
     env_visible_text := Raise "Target closed";
     env_interactive_elements := Raise "Target closed";
     env_chat_completion := fun _ => Ok [Some "SCROLL"];
     env_page := empty_page; env_screenshot_after := Raise "Target closed" |}.

Definition good_session : session_env :=
  {| se_launch := Ok tt; se_page := empty_page; se_time := 1700000000;
     se_screenshot := Ok "start" |}.

(** The model answers SCROLL in the first four steps, then TASK_COMPLETE. *)
Definition four_scrolls : world :=
  {| w_session := good_session;
     w_steps := fun step => if step <=? 4 then answering "SCROLL" empty_page
                            else answering "TASK_COMPLETE" empty_page;
     w_close := Ok tt |}.

(** The model always gives the same answer. *)
Definition stubborn (answer : string) : world :=
  {| w_session := good_session;
     w_steps := fun _ => answering answer empty_page;
     w_close := Ok tt |}.

(** The model asks for something new in every step. *)
Definition restless : world :=
  {| w_session := good_session;
     w_steps := fun step => answering ("SEARCH item " ++ decimal step) empty_page;
     w_close := Ok tt |}.

(** The page is lost from the first step on, and closing the session
    raises. *)
Definition teardown_fails : world :=
  {| w_session := good_session;
     w_steps := fun _ => page_lost;
     w_close := Raise "Browser closed" |}.

(** The page is lost in the second step. *)
Definition crash_at_two : world :=
  {| w_session := good_session;
     w_steps := fun step => if step =? 2 then page_lost
                            else answering "SCROLL" empty_page;
     w_close := Ok tt |}.

(** The session created in the examples, and the agent after its creation. *)
Definition example_session : session :=
  {| s_session_id := "session_1700000000"; s_url := "https://example.com";
     s_screenshot := "start"; s_status := CONTINUE |}.

Definition example_agent : agent :=
  snd (fst (create_session good_session "https://example.com" new_agent)).

(** ** Predicates used in the statements *)

(** No logged operation raised. *)
Definition clean (l : list event) : Prop :=
  Forall (fun ev => ev_fault ev = None) l.

(** The log ends with the operation that raised [e]; nothing raised before. *)
Definition faulted (e : string) (l : list event) : Prop :=
  exists l0 c, l = (l0 ++ [{| ev_call := c; ev_fault := Some e |}])%list /\ clean l0.

(** An outcome whose exception, if any, is the fault of its last operation. *)
Definition faithful {A} (out : result A * agent * list event) : Prop :=
  match out with
  | (Ok _, _, l) => clean l
  | (Raise e, _, l) => faulted e l
  end.

(** A computation that raises only what the operations it performs raise. *)
Definition tracked {A} (m : M A) : Prop := forall s, faithful (m s).

(** The response reports the fault [e] with status ERROR. *)
Definition reports (resp : response) (e : string) : Prop :=
  r_status resp = ERROR /\ exists what, r_message resp = what ++ e.

(** An outcome of the executor: a response after a clean log, a response
    reporting the one fault of the log, or that fault still travelling. *)
Definition accounted (out : result response * agent * list event) : Prop :=
  match out with
  | (Ok resp, _, l) => clean l \/ exists e, faulted e l /\ reports resp e
  | (Raise e, _, l) => faulted e l
  end.

(** The destination as the specification words it: the part of the
    directive from the first occurrence of [sub] onward. *)
Fixpoint spec_from_first (sub s : string) : string :=
  match s with
  | EmptyString => EmptyString
  | String _ s' => if String.prefix sub s then s else spec_from_first sub s'
  end.

Definition spec_destination (action : string) : string :=
  spec_from_first "http" action.

(** What holds of the variables of the loop whenever its condition is tested:
    one record per executed iteration besides the initial one; no more
    iterations than [max_steps]; the step counter is one ahead of the
    iterations while the status is CONTINUE; the status is that of the last
    record, and all records before it have status CONTINUE. *)
Definition sound (max_steps : Z) (ls : loop_state) : Prop :=
  List.length (ls_steps ls) = S (ls_iterations ls)
  /\ Z.of_nat (ls_iterations ls) <= Z.max 0 max_steps
  /\ (ls_status ls = CONTINUE -> ls_step ls = Z.of_nat (ls_iterations ls) + 1)
  /\ exists init r,
       ls_steps ls = (init ++ [r])%list /\ sr_status r = ls_status ls
       /\ Forall (fun x => sr_status x = CONTINUE) init.

(** The directive texts of the iterations executed so far, oldest first. *)
Definition directives (ls : loop_state) : list string :=
  map sr_action (tl (ls_steps ls)).

(** How many of the directives [recent], read from the most recent one
    backwards, are identical to [a] without interruption. *)
Fixpoint streak (a : string) (recent : list string) : nat :=
  match recent with
  | b :: older => if (a =? b)%string then S (streak a older) else O
  | [] => O
  end.

(** The state after the iteration that starts in [ls]. *)
Definition next_state (envs : Z -> step_env) (task : string) (ls : loop_state)
    : loop_state :=
  fst (loop_body (envs (ls_step ls)) task ls).

(** The states in which the loop tests its condition, in a run from [start]. *)
Inductive visits (envs : Z -> step_env) (task : string) (max_steps : Z)
    (start : loop_state) : loop_state -> Prop :=
| visits_start : visits envs task max_steps start start
| visits_next ls ls' :
    visits envs task max_steps start ls ->
    loop_condition max_steps ls = true ->
    loop_body (envs (ls_step ls)) task ls = (ls', false) ->
    visits envs task max_steps start ls'.

(** [last_action] is the latest directive and [repeated_actions] counts how
    far it repeats; before the first iteration [last_action] is empty. *)
Definition counted (ls : loop_state) : Prop :=
  ls_steps ls <> []
  /\ let full := (rev (directives ls) ++ [EmptyString])%list in
     ls_last_action ls = hd EmptyString full
     /\ ls_repeated_actions ls = Z.of_nat (streak (hd EmptyString full) (tl full)).

(** ** The HTTP endpoint: [autonomous_task] *)

(** The JSON object of a request of the front end: the keys the endpoint
    reads, each absent or holding a value of the type the front end sends
    (a string for [url] and [task], an integer for [max_steps]).  Requests
    of another shape (a body that is no JSON object, a [url] or [task] that
    is no string, a [max_steps] that is no integer) are not in this type;
    what is proved of the endpoint is proved for requests of this shape. *)
Record task_request : Type := mk_task_request {
  rq_url : option string;
  rq_task : option string;
  rq_max_steps : option Z
}.

(** The JSON body of the response. *)
Inductive http_body : Type :=
| ReplyBody (r : reply)
| ErrorBody (error : string).

(** [d.get(key, default)]. *)
Definition get_or {A} (o : option A) (default : A) : A :=
  match o with Some a => a | None => default end.

(** [if not url.startswith(('http://', 'https://')): url = 'https://' + url]. *)
Definition normalize_url (url : string) : string :=
  if negb (PyStr.startswith "http://" url || PyStr.startswith "https://" url)
  then "https://" ++ url else url.

(** [os.getenv('OPENAI_API_KEY') or "YOUR_OPENAI_API_KEY_HERE"]. *)
Definition api_key_of (getenv : option string) : string :=
  match getenv with
  | Some key => if PyStr.is_empty key then "YOUR_OPENAI_API_KEY_HERE" else key
  | None => "YOUR_OPENAI_API_KEY_HERE"
  end.

(** The endpoint: the body and the status code of its response.  [getenv]
    is the value of the environment variable, [w] the outside world during
    the request. *)
Definition autonomous_task (getenv : option string) (w : world)
    (data : task_request) : http_body * Z :=
  let url := PyStr.strip (get_or (rq_url data) EmptyString) in
  let task := get_or (rq_task data) EmptyString in
  let max_steps := get_or (rq_max_steps data) 5 in
  if PyStr.is_empty url || PyStr.is_empty task
  then (ErrorBody "URL and task are required", 400)
  else
    let url := normalize_url url in
    let api_key := api_key_of getenv in
    if PyStr.is_empty api_key
    then (ErrorBody "OpenAI API key not configured", 500)
    else
      match autonomous_process w url task max_steps with
      | Ok result => (ReplyBody result, 200)
      | Raise e => (ErrorBody ("Autonomous task failed: " ++ e), 500)
      end.

(** ** Further predicates on computations *)

(** A computation that leaves the attributes of the agent as they are. *)
Definition frames {A} (m : M A) : Prop := forall s, snd (fst (m s)) = s.

(** Every value the computation returns satisfies [P]. *)
Definition returns {A} (P : A -> Prop) (m : M A) : Prop :=
  forall s a s' l, m s = (Ok a, s', l) -> P a.

(** A response with status CONTINUE. *)
Definition goes_on (r : response) : Prop := r_status r = CONTINUE.

(** An outcome of the executor on a directive without marker: status
    CONTINUE after a clean log, or the report of the one fault of the log. *)
Definition graded (out : result response * agent * list event) : Prop :=
  match out with
  | (Ok resp, _, l) =>
      (clean l /\ r_status resp = CONTINUE) \/ exists e, faulted e l /\ reports resp e
  | (Raise e, _, l) => faulted e l
  end.

(** Some logged operation raised. *)
Definition has_fault (l : list event) : Prop :=
  exists ev e, In ev l /\ ev_fault ev = Some e.

(** A found response, if any, has status CONTINUE. *)
Definition found_goes_on (o : option response) : Prop :=
  forall r, o = Some r -> goes_on r.

(** Attributes a computation does not change. *)
Definition preserves {A B} (f : agent -> B) (m : M A) : Prop :=
  forall s, f (snd (fst (m s))) = f s.

(** The step count of the agent and the iterations of the loop. *)
Definition in_step (ls : loop_state) : Prop :=
  Z.of_nat (ls_iterations ls) <= 9
  /\ (ls_status ls = CONTINUE ->
      step_count (ls_agent ls) = Z.of_nat (ls_iterations ls)
      /\ Z.of_nat (ls_iterations ls) <= 8).

(** The records of the trace are numbered from 0 in the order they were
    appended, and while the status is CONTINUE the step counter is the
    number of the next record. *)
Definition numbered (ls : loop_state) : Prop :=
  (forall i r, nth_error (ls_steps ls) i = Some r -> sr_step_number r = Z.of_nat i)
  /\ (ls_status ls = CONTINUE -> ls_step ls = Z.of_nat (List.length (ls_steps ls))).

(** The record a session starts with. *)
Definition start_record (url shot : string) : step_record :=
  {| sr_step_number := 0; sr_action := "Started session on " ++ url;
     sr_status := CONTINUE; sr_screenshot := shot;
     sr_message := "Session initialized" |}.

(** The log entry of an operation that returned. *)
Definition done (c : call) : event := {| ev_call := c; ev_fault := None |}.

(** The element's text can be read and does not hold [target], ignoring
    case. *)
Definition no_match (target : string) (el : element) : Prop :=
  exists text, el_text_content el = Ok text
               /\ PyStr.contains (PyStr.lower target) (PyStr.lower text) = false.

(** ** Facts about the string operations *)

Lemma prefix_empty_r s : String.prefix s EmptyString = true -> s = EmptyString.
Proof. destruct s; simpl; [reflexivity | discriminate]. Qed.

Lemma prefix_cons c a b :
  String.prefix (String c a) (String c b) = String.prefix a b.
Proof. simpl. destruct (ascii_dec c c); [reflexivity | congruence]. Qed.

Lemma prefix_cons_inv c a d b :
  String.prefix (String c a) (String d b) = true -> c = d /\ String.prefix a b = true.
Proof. simpl. destruct (ascii_dec c d); [auto | discriminate]. Qed.

Lemma prefix_trans a : forall b c,
  String.prefix a b = true -> String.prefix b c = true -> String.prefix a c = true.
Proof.
  induction a as [|x a IH]; intros b c Hab Hbc.
  - destruct c; reflexivity.
  - destruct b as [|y b]; [discriminate|].
    destruct c as [|z c]; [discriminate|].
    apply prefix_cons_inv in Hab. destruct Hab as [-> Hab].
    apply prefix_cons_inv in Hbc. destruct Hbc as [-> Hbc].
    rewrite prefix_cons. eauto.
Qed.

Lemma contains_empty s : PyStr.contains EmptyString s = true.
Proof. destruct s; reflexivity. Qed.

Lemma contains_lstrip m s :
  PyStr.contains m (PyStr.lstrip s) = true -> PyStr.contains m s = true.
Proof.
  induction s as [|c s IH]; simpl; [auto|].
  destruct (PyStr.isspace c); [|auto].
  intros H. rewrite (IH H). apply orb_true_r.
Qed.

Lemma rstrip_prefix s : String.prefix (PyStr.rstrip s) s = true.
Proof.
  induction s as [|c s IH]; [reflexivity|].
  cbn [PyStr.rstrip].
  destruct (PyStr.isspace c && PyStr.is_empty (PyStr.rstrip s)); [reflexivity|].
  rewrite prefix_cons. exact IH.
Qed.

Lemma contains_prefix_mono m r : forall s,
  String.prefix r s = true -> PyStr.contains m r = true -> PyStr.contains m s = true.
Proof.
  induction r as [|c r IH]; intros s Hrs Hm.
  - simpl in Hm. apply prefix_empty_r in Hm. subst m. apply contains_empty.
  - destruct s as [|d s]; [discriminate|].
    apply prefix_cons_inv in Hrs. destruct Hrs as [<- Hrs].
    cbn [PyStr.contains] in *. apply orb_true_iff in Hm. apply orb_true_iff.
    destruct Hm as [Hm|Hm].
    + left. apply (prefix_trans m (String c r)); [exact Hm|].
      rewrite prefix_cons. exact Hrs.
    + right. eauto.
Qed.

(** Stripping cannot create an occurrence of a text. *)
Lemma contains_strip m s :
  PyStr.contains m s = false -> PyStr.contains m (PyStr.strip s) = false.
Proof.
  intros H. destruct (PyStr.contains m (PyStr.strip s)) eqn:E; [|reflexivity].
  unfold PyStr.strip in E.
  apply (contains_prefix_mono m _ _ (rstrip_prefix _)) in E.
  apply contains_lstrip in E. congruence.
Qed.

(** A text has one first character: it cannot start with two keywords that
    begin differently. *)
Lemma startswith_first c p d q s :
  PyStr.startswith (String c p) s = true ->
  c <> d -> PyStr.startswith (String d q) s = false.
Proof.
  unfold PyStr.startswith. destruct s as [|x s]; [discriminate|].
  intros H Hcd. apply prefix_cons_inv in H. destruct H as [<- _].
  simpl. destruct (ascii_dec d c); [congruence | reflexivity].
Qed.

(** ** Faults are accounted for *)

Lemma clean_app l1 l2 : clean l1 -> clean l2 -> clean (l1 ++ l2).
Proof. unfold clean. intros. apply Forall_app. auto. Qed.

Lemma faulted_app e l1 l2 : clean l1 -> faulted e l2 -> faulted e (l1 ++ l2).
Proof.
  intros H1 (l0 & c & -> & H0). exists (l1 ++ l0)%list, c.
  split; [apply app_assoc | apply clean_app; assumption].
Qed.

Lemma tracked_ret {A} (a : A) : tracked (ret a).
Proof. intros s. constructor. Qed.

Lemma tracked_get {A} (f : agent -> A) : tracked (get f).
Proof. intros s. constructor. Qed.

Lemma tracked_modify f : tracked (modify f).
Proof. intros s. constructor. Qed.

Lemma tracked_perform {A} c (r : result A) : tracked (perform c r).
Proof.
  intros s. destruct r as [a|e]; simpl.
  - repeat constructor.
  - exists [], c. split; [reflexivity | constructor].
Qed.

Lemma tracked_bind {A B} (m : M A) (k : A -> M B) :
  tracked m -> (forall a, tracked (k a)) -> tracked (bind m k).
Proof.
  intros Hm Hk s. unfold bind. specialize (Hm s).
  destruct (m s) as [[[a|e] s1] l1]; simpl in *; [|exact Hm].
  specialize (Hk a s1). destruct (k a s1) as [[[b|e] s2] l2]; simpl in *.
  - apply clean_app; assumption.
  - apply faulted_app; assumption.
Qed.

Ltac track :=
  repeat first
    [ apply tracked_bind; [|intros ?]
    | apply tracked_ret | apply tracked_get | apply tracked_modify
    | apply tracked_perform
    | match goal with
      | |- tracked (match ?x with _ => _ end) => destruct x
      | |- tracked (if ?b then _ else _) => destruct b
      end ].

Lemma tracked_click_matching pg what settle target els :
  tracked (click_matching pg what settle target els).
Proof.
  induction els as [|el els IH]; simpl.
  - track.
  - apply tracked_bind; [apply tracked_perform | intros text].
    destruct (PyStr.contains _ _); [|exact IH].
    unfold click, wait_for_timeout. track.
Qed.

Lemma tracked_fill_first_match pg field_name value selectors :
  tracked (fill_first_match pg field_name value selectors).
Proof.
  induction selectors as [|sel sels IH]; simpl.
  - track.
  - destruct (PyStr.is_empty sel); [exact IH|].
    apply tracked_bind; [apply tracked_perform | intros [e|]]; [|exact IH].
    unfold fill, wait_for_timeout. track.
Qed.

Lemma tracked_click_body pg action : tracked (click_body pg action).
Proof.
  unfold click_body, click_button, click_link, query_selector_all,
    query_selector, click, wait_for_timeout.
  destruct (PyStr.contains "button" _); [|destruct (PyStr.contains "link" _)].
  - apply tracked_bind.
    + destruct (quoted_target action); [|track].
      apply tracked_bind; [track | intros; apply tracked_click_matching].
    + intros [r|]; track.
  - apply tracked_bind.
    + destruct (quoted_target action); [|track].
      apply tracked_bind; [track | intros; apply tracked_click_matching].
    + intros [r|]; track.
  - track.
Qed.

Lemma tracked_fill_body pg action : tracked (fill_body pg action).
Proof.
  unfold fill_body, fill_field, query_selector, fill, wait_for_timeout.
  destruct (3 <=? _)%nat; [|track].
  apply tracked_bind; [apply tracked_fill_first_match|].
  intros [r|]; track.
Qed.

Lemma tracked_scroll_body pg : tracked (scroll_body pg).
Proof. unfold scroll_body, scroll_by, wait_for_timeout. track. Qed.

Lemma tracked_navigate_body pg action : tracked (navigate_body pg action).
Proof.
  unfold navigate_body, navigate_to, goto, wait_for_timeout. track.
Qed.

Lemma tracked_search_body pg action : tracked (search_body pg action).
Proof.
  unfold search_body, query_selector, fill, keyboard_press, scroll_by,
    wait_for_timeout. track.
Qed.

Lemma tracked_unknown_body pg action : tracked (unknown_body pg action).
Proof. unfold unknown_body, scroll_by, wait_for_timeout. track. Qed.

Lemma accounted_of_tracked (m : M response) s : tracked m -> accounted (m s).
Proof.
  intros H. specialize (H s). destruct (m s) as [[[r|e] s1] l]; simpl in *; auto.
Qed.

(** An [except] clause that reports the exception settles the outcome. *)
Lemma accounted_try_report (m : M response) what s :
  accounted (m s) ->
  accounted (try_except m (report_error what) s)
  /\ exists resp s' l, try_except m (report_error what) s = (Ok resp, s', l).
Proof.
  unfold try_except, report_error, ret.
  destruct (m s) as [[[r|e] s1] l]; simpl; intros H.
  - split; [exact H | do 3 eexists; reflexivity].
  - rewrite app_nil_r. split; [|do 3 eexists; reflexivity].
    right. exists e. split; [exact H|]. split; [reflexivity | exists what; reflexivity].
Qed.

Lemma accounted_dispatch pg action s : accounted (dispatch pg action s).
Proof.
  unfold dispatch.
  repeat match goal with
         | |- accounted ((if ?b then _ else _) _) => destruct b
         end;
    try (apply accounted_try_report; apply accounted_of_tracked);
    try apply accounted_of_tracked;
    auto using tracked_click_body, tracked_fill_body, tracked_scroll_body,
      tracked_navigate_body, tracked_search_body, tracked_unknown_body,
      tracked_ret.
Qed.

(** The executor always returns a response, and its outcome is accounted for. *)
Lemma execute_action_accounted pg action s :
  exists resp s' l,
    execute_action pg action s = (Ok resp, s', l)
    /\ (clean l \/ exists e, faulted e l /\ reports resp e).
Proof.
  destruct (accounted_try_report (dispatch pg action)
              "Action execution failed: " s (accounted_dispatch pg action s))
    as [Hacc (resp & s' & l & Heq)].
  unfold execute_action. rewrite Heq in *. exists resp, s', l. split; auto.
Qed.

Lemma clean_no_fault l ev e : clean l -> In ev l -> ev_fault ev = Some e -> False.
Proof.
  unfold clean. rewrite Forall_forall. intros H Hin He.
  apply H in Hin. congruence.
Qed.

Lemma faulted_unique e l ev e' :
  faulted e l -> In ev l -> ev_fault ev = Some e' -> e' = e.
Proof.
  intros (l0 & c & -> & H0) Hin He. apply in_app_or in Hin.
  destruct Hin as [Hin|[<-|[]]].
  - exfalso. eapply clean_no_fault; eauto.
  - simpl in He. congruence.
Qed.

(** ** The executor on the directives of the grammar *)

Ltac skip_branch H :=
  match goal with
  | |- context [PyStr.startswith (String ?d ?q) ?u] =>
      rewrite (startswith_first _ _ d q u H ltac:(discriminate))
  end.

(** C8: a CLICK directive that mentions a button, run on a page whose
    queries for [button] elements answer with no element, returns status
    CONTINUE with the message that no suitable element was found; no
    operation raises and nothing is reported as an error. *)
Theorem click_button_without_buttons pg action ag :
  PyStr.contains "TASK_COMPLETE" (PyStr.upper action) = false ->
  PyStr.contains "TASK_FAILED" (PyStr.upper action) = false ->
  PyStr.startswith "CLICK" (PyStr.upper action) = true ->
  PyStr.contains "button" (PyStr.lower action) = true ->
  pg_query_selector_all pg "button" = Ok [] ->
  pg_query_selector pg "button" = Ok None ->
  exists l,
    execute_action pg action ag =
      (Ok {| r_status := CONTINUE;
             r_message := "No suitable element found to click" |}, ag, l)
    /\ clean l.
Proof.
  intros Hc Hf Hclick Hbutton Hall Hone.
  unfold execute_action, dispatch. rewrite Hc, Hf, Hclick.
  unfold click_body. rewrite Hbutton.
  unfold click_button, quoted_target.
  destruct (PyStr.contains "'" action).
  - unfold try_except, bind, query_selector_all, query_selector, perform.
    rewrite Hall. cbn. rewrite Hone. cbn.
    eexists. split; [reflexivity | repeat constructor].
  - unfold try_except, bind, query_selector, perform, ret.
    rewrite Hone. cbn.
    eexists. split; [reflexivity | repeat constructor].
Qed.

Lemma click_button_without_buttons_witness :
  exists l,
    execute_action empty_page "CLICK button 'Submit'" new_agent =
      (Ok {| r_status := CONTINUE;
             r_message := "No suitable element found to click" |}, new_agent, l)
    /\ clean l.
Proof.
  apply (click_button_without_buttons empty_page "CLICK button 'Submit'" new_agent);
    reflexivity.
Defined.

(** C9: the three directives of the grammar's examples.  The executor runs
    "CLICK button 'Submit'" as a click on a button with target text Submit,
    "FILL email test@example.com" as filling field email with value
    test@example.com, and "NAVIGATE https://example.com" as a navigation to
    https://example.com. *)
Theorem grammar_examples pg ag :
  execute_action pg "CLICK button 'Submit'" ag =
    try_except
      (try_except (click_button pg (Some "Submit")) (report_error "Click failed: "))
      (report_error "Action execution failed: ") ag
  /\ execute_action pg "FILL email test@example.com" ag =
    try_except
      (try_except (fill_field pg "email" "test@example.com")
                  (report_error "Fill failed: "))
      (report_error "Action execution failed: ") ag
  /\ execute_action pg "NAVIGATE https://example.com" ag =
    try_except
      (try_except (navigate_to pg "https://example.com")
                  (report_error "Navigation failed: "))
      (report_error "Action execution failed: ") ag.
Proof. split; [|split]; reflexivity. Qed.

(** C5: on the directive "NAVIGATE http://example.com" the executor
    navigates to "://example.com", whereas the part of the directive from
    the first "http" onward is "http://example.com". *)
Theorem navigate_plain_http_loses_scheme pg ag :
  navigate_url "NAVIGATE http://example.com" = "://example.com"
  /\ spec_destination "NAVIGATE http://example.com" = "http://example.com"
  /\ execute_action pg "NAVIGATE http://example.com" ag =
       try_except
         (try_except (navigate_to pg "://example.com")
                     (report_error "Navigation failed: "))
         (report_error "Action execution failed: ") ag.
Proof. split; [|split]; reflexivity. Qed.

(** The same expression cuts the destination at a second "http". *)
Lemma navigate_url_cut_at_second_http :
  navigate_url "NAVIGATE https://example.com/http-docs" = "https://example.com/"
  /\ spec_destination "NAVIGATE https://example.com/http-docs"
     = "https://example.com/http-docs".
Proof. split; reflexivity. Qed.

(** C10: a NAVIGATE directive without "http" returns CONTINUE and leaves the
    agent as it was; with "http", a failure of the navigation or of the wait
    after it returns ERROR and leaves the agent as it was; [current_url]
    is written only when both have succeeded. *)
Theorem navigate_atomic pg action ag :
  PyStr.contains "TASK_COMPLETE" (PyStr.upper action) = false ->
  PyStr.contains "TASK_FAILED" (PyStr.upper action) = false ->
  PyStr.startswith "NAVIGATE" (PyStr.upper action) = true ->
  let url := navigate_url action in
  let out := execute_action pg action ag in
  let went r := {| ev_call := Goto url; ev_fault := fault_of r |} in
  let waited r := {| ev_call := WaitForTimeout 3000; ev_fault := fault_of r |} in
  (PyStr.contains "http" action = false ->
     out = (Ok {| r_status := CONTINUE; r_message := "Invalid navigation URL" |},
            ag, []))
  /\ (PyStr.contains "http" action = true ->
      match pg_goto pg url, pg_wait_for_timeout pg 3000 with
      | Raise e, _ =>
          out = (Ok {| r_status := ERROR; r_message := "Navigation failed: " ++ e |},
                 ag, [went (pg_goto pg url)])
      | Ok _, Raise e =>
          out = (Ok {| r_status := ERROR; r_message := "Navigation failed: " ++ e |},
                 ag, [went (pg_goto pg url); waited (pg_wait_for_timeout pg 3000)])
      | Ok _, Ok _ =>
          out = (Ok {| r_status := CONTINUE; r_message := "Navigated to " ++ url |},
                 set_current_url url ag,
                 [went (pg_goto pg url); waited (pg_wait_for_timeout pg 3000)])
      end)
  /\ (snd (fst out) <> ag ->
      exists u v, pg_goto pg url = Ok u /\ pg_wait_for_timeout pg 3000 = Ok v).
Proof.
  intros Hc Hf Hnav url out went waited.
  assert (Hout : out = try_except
            (try_except (navigate_body pg action) (report_error "Navigation failed: "))
            (report_error "Action execution failed: ") ag).
  { subst out. unfold execute_action, dispatch. rewrite Hc, Hf.
    do 3 skip_branch Hnav. rewrite Hnav. reflexivity. }
  assert (Hno : PyStr.contains "http" action = false ->
     out = (Ok {| r_status := CONTINUE; r_message := "Invalid navigation URL" |},
            ag, [])).
  { intros Hh. rewrite Hout. unfold navigate_body. rewrite Hh. reflexivity. }
  assert (Hyes : PyStr.contains "http" action = true ->
      match pg_goto pg url, pg_wait_for_timeout pg 3000 with
      | Raise e, _ =>
          out = (Ok {| r_status := ERROR; r_message := "Navigation failed: " ++ e |},
                 ag, [went (pg_goto pg url)])
      | Ok _, Raise e =>
          out = (Ok {| r_status := ERROR; r_message := "Navigation failed: " ++ e |},
                 ag, [went (pg_goto pg url); waited (pg_wait_for_timeout pg 3000)])
      | Ok _, Ok _ =>
          out = (Ok {| r_status := CONTINUE; r_message := "Navigated to " ++ url |},
                 set_current_url url ag,
                 [went (pg_goto pg url); waited (pg_wait_for_timeout pg 3000)])
      end).
  { intros Hh. rewrite Hout. unfold navigate_body. rewrite Hh.
    unfold navigate_to, goto, wait_for_timeout, try_except, bind, perform,
      modify, ret, report_error.
    subst went waited. fold url.
    destruct (pg_goto pg url) as [u|e]; [|reflexivity].
    destruct (pg_wait_for_timeout pg 3000) as [v|e]; reflexivity. }
  split; [exact Hno|]. split; [exact Hyes|].
  intros Hchanged.
  destruct (PyStr.contains "http" action) eqn:Hh.
  - specialize (Hyes eq_refl).
    destruct (pg_goto pg url) as [u|e].
    + destruct (pg_wait_for_timeout pg 3000) as [v|e]; [eauto|].
      rewrite Hyes in Hchanged. exfalso. apply Hchanged. reflexivity.
    + rewrite Hyes in Hchanged. exfalso. apply Hchanged. reflexivity.
  - rewrite (Hno eq_refl) in Hchanged. exfalso. apply Hchanged. reflexivity.
Qed.

Lemma navigate_atomic_witness :
  execute_action offline_page "NAVIGATE https://example.com" new_agent =
    (Ok {| r_status := ERROR;
           r_message := "Navigation failed: net::ERR_NAME_NOT_RESOLVED" |},
     new_agent,
     [{| ev_call := Goto "https://example.com";
         ev_fault := Some "net::ERR_NAME_NOT_RESOLVED" |}]).
Proof.
  exact (proj1 (proj2 (navigate_atomic offline_page "NAVIGATE https://example.com"
                         new_agent eq_refl eq_refl eq_refl)) eq_refl).
Defined.

(** ** The decision step *)

(** C2: from step count 8 on, a model answer that holds neither
    TASK_COMPLETE nor TASK_FAILED is replaced by TASK_COMPLETE. *)
Theorem forced_completion env task page_content ag visible_text elements
    answer others :
  8 <= step_count ag ->
  env_visible_text env = Ok visible_text ->
  env_interactive_elements env = Ok elements ->
  env_chat_completion env (build_prompt task ag visible_text elements)
    = Ok (Some answer :: others) ->
  PyStr.contains "TASK_COMPLETE" answer = false ->
  PyStr.contains "TASK_FAILED" answer = false ->
  fst (determine_action env task page_content ag) = (Ok "TASK_COMPLETE", ag).
Proof.
  intros Hn Hvt Hel Hchat Hc Hf.
  unfold determine_action, bind, perform, get, try_except.
  rewrite Hvt, Hel, Hchat. cbn [first_choice ret].
  rewrite (contains_strip _ _ Hc), (contains_strip _ _ Hf).
  apply Z.leb_le in Hn. rewrite Hn. reflexivity.
Qed.

Lemma forced_completion_witness :
  fst (determine_action (answering "SCROLL" empty_page) "find the prices"
         "<html></html>" (set_step_count 8 new_agent))
  = (Ok "TASK_COMPLETE", set_step_count 8 new_agent).
Proof.
  apply (forced_completion (answering "SCROLL" empty_page) "find the prices"
           "<html></html>" (set_step_count 8 new_agent) "text" [] "SCROLL" []);
    solve [reflexivity | vm_compute; discriminate].
Defined.

(** Below step count 8 the answer is returned as the model gave it,
    stripped. *)
Lemma determine_action_passes_answer env task page_content ag visible_text
    elements answer others :
  env_visible_text env = Ok visible_text ->
  env_interactive_elements env = Ok elements ->
  env_chat_completion env (build_prompt task ag visible_text elements)
    = Ok (Some answer :: others) ->
  step_count ag < 8 ->
  fst (determine_action env task page_content ag) = (Ok (PyStr.strip answer), ag).
Proof.
  intros Hvt Hel Hchat Hn.
  unfold determine_action, bind, perform, get, try_except.
  rewrite Hvt, Hel, Hchat. cbn [first_choice ret].
  apply Z.leb_gt in Hn. rewrite Hn. reflexivity.
Qed.

(** C6: when the page has been read and the call of the model raises, or
    its response has no choice or no content, the decision step returns
    TASK_FAILED and raises nothing. *)
Theorem model_failure_becomes_task_failed env task page_content ag visible_text
    elements :
  env_visible_text env = Ok visible_text ->
  env_interactive_elements env = Ok elements ->
  (let answer := env_chat_completion env (build_prompt task ag visible_text elements) in
   (exists e, answer = Raise e) \/ answer = Ok []
   \/ (exists others, answer = Ok (None :: others))) ->
  fst (determine_action env task page_content ag) = (Ok "TASK_FAILED", ag).
Proof.
  intros Hvt Hel Hchat.
  unfold determine_action, bind, perform, get, try_except.
  rewrite Hvt, Hel.
  destruct Hchat as [[e ->]|[-> | [others ->]]]; reflexivity.
Qed.

Lemma model_failure_becomes_task_failed_witness :
  fst (determine_action model_down "find the prices" "<html></html>" new_agent)
  = (Ok "TASK_FAILED", new_agent).
Proof.
  apply (model_failure_becomes_task_failed model_down "find the prices"
           "<html></html>" new_agent "text" []); [reflexivity | reflexivity |].
  left. exists "Connection error.". reflexivity.
Defined.

(** Once the page has been read, the decision step does not raise. *)
Lemma determine_action_returns env task page_content ag visible_text elements :
  env_visible_text env = Ok visible_text ->
  env_interactive_elements env = Ok elements ->
  exists action l, determine_action env task page_content ag = (Ok action, ag, l).
Proof.
  intros Hvt Hel.
  unfold determine_action, bind, perform, get, try_except.
  rewrite Hvt, Hel.
  destruct (env_chat_completion env _) as [[|[content|] others]|e];
    cbn [first_choice ret raise]; try (do 2 eexists; reflexivity).
  destruct (_ && _); do 2 eexists; reflexivity.
Qed.

(** ** The loop of the session driver *)

(** The loop, unfolded once. *)
Lemma while_loop_eq envs task max_steps ls :
  while_loop envs task max_steps ls =
  if loop_condition max_steps ls then
    let (ls', stop) := loop_body (envs (ls_step ls)) task ls in
    if stop then ls' else while_loop envs task max_steps ls'
  else ls.
Proof.
  funelim (while_loop envs task max_steps ls);
    repeat match goal with
           | E : loop_condition _ _ = _ |- context [loop_condition _ _] => rewrite E
           | E : loop_body _ _ _ = _ |- context [loop_body _ _ _] => rewrite E
           end; reflexivity.
Qed.

(** What one execution of the body does to the variables of the loop. *)
Lemma loop_body_cases env task ls ls' stop :
  loop_body env task ls = (ls', stop) ->
  stop = is_terminal (ls_status ls')
  /\ ls_iterations ls' = S (ls_iterations ls)
  /\ (exists r, ls_steps ls' = (ls_steps ls ++ [r])%list
                /\ sr_status r = ls_status ls' /\ sr_step_number r = ls_step ls)
  /\ (ls_status ls' = CONTINUE -> ls_step ls' = ls_step ls + 1).
Proof.
  unfold loop_body.
  destruct (execute_task env task (ls_agent ls)) as [[[result|e] ag] l].
  - destruct (check_repeated _ _ result) as [[r la] ra].
    intros H. inversion H. subst. cbn.
    repeat split; eauto.
  - intros H. inversion H. subst. cbn.
    repeat split; eauto. discriminate.
Qed.

(** An exception in [execute_task] ends the loop with an ERROR record. *)
Lemma loop_body_raise env task ls e ag l :
  execute_task env task (ls_agent ls) = (Raise e, ag, l) ->
  exists ls',
    loop_body env task ls = (ls', true)
    /\ ls_status ls' = ERROR
    /\ ls_steps ls' =
         (ls_steps ls ++ [{| sr_step_number := ls_step ls; sr_action := "ERROR";
                             sr_status := ERROR; sr_screenshot := EmptyString;
                             sr_message := "Error: " ++ e |}])%list.
Proof.
  intros H. unfold loop_body. rewrite H. eexists. repeat split.
Qed.

Lemma loop_condition_true max_steps ls :
  loop_condition max_steps ls = true ->
  ls_status ls = CONTINUE /\ ls_step ls <= max_steps.
Proof.
  unfold loop_condition. intros H. apply andb_prop in H. destruct H as [Hs Hle].
  apply Z.leb_le in Hle. split; [|exact Hle].
  destruct (ls_status ls); simpl in Hs; congruence.
Qed.

Lemma sound_initial max_steps url s ag : sound max_steps (initial_state url s ag).
Proof.
  unfold sound, initial_state; cbn. repeat split; try lia.
  eexists [], _. repeat split. constructor.
Qed.

Lemma sound_body max_steps env task ls ls' stop :
  sound max_steps ls -> loop_condition max_steps ls = true ->
  loop_body env task ls = (ls', stop) -> sound max_steps ls'.
Proof.
  intros (Hlen & Hbound & Hstep & init & r & Hsteps & Hr & Hinit) Hc Hb.
  apply loop_condition_true in Hc. destruct Hc as [Hst Hle].
  apply loop_body_cases in Hb.
  destruct Hb as (_ & Hit & (r' & Hsteps' & Hr' & _) & Hnext).
  specialize (Hstep Hst).
  unfold sound. rewrite Hit, Hsteps'. repeat split.
  - rewrite length_app, Hlen. simpl. lia.
  - lia.
  - intros H. rewrite (Hnext H). lia.
  - exists (ls_steps ls), r'. repeat split; [exact Hr'|].
    rewrite Hsteps. apply Forall_app. split; [exact Hinit|].
    constructor; [congruence | constructor].
Qed.

(** A property kept by every execution of the body holds when the loop ends. *)
Lemma while_loop_preserves (Inv : loop_state -> Prop) envs task max_steps :
  (forall ls ls' stop, Inv ls -> loop_condition max_steps ls = true ->
     loop_body (envs (ls_step ls)) task ls = (ls', stop) -> Inv ls') ->
  forall ls, Inv ls -> Inv (while_loop envs task max_steps ls).
Proof.
  intros Hstep ls. funelim (while_loop envs task max_steps ls); intros Hinv.
  - exact Hinv.
  - eapply Hstep; eassumption.
  - match goal with IH : forall I : loop_state -> Prop, _ |- _ => apply IH end.
    + exact Hstep.
    + eapply Hstep; eassumption.
Qed.

(** When the loop has ended its condition is false. *)
Lemma while_loop_exit envs task max_steps ls :
  loop_condition max_steps (while_loop envs task max_steps ls) = false.
Proof.
  funelim (while_loop envs task max_steps ls); auto.
  match goal with
  | E : loop_body _ _ _ = _ |- _ =>
      destruct (loop_body_cases _ _ _ _ _ E) as [Hstop _]
  end.
  unfold loop_condition. destruct (ls_status ls'); simpl in *; congruence.
Qed.

Lemma sound_while max_steps envs task ls :
  sound max_steps ls -> sound max_steps (while_loop envs task max_steps ls).
Proof.
  apply while_loop_preserves. intros. eapply sound_body; eauto.
Qed.

Lemma autonomous_process_cases w url task max_steps :
  match create_session (w_session w) url new_agent with
  | (Ok s, ag, _) =>
      let ls := session_loop w url task max_steps s ag in
      autonomous_process w url task max_steps =
        match w_close w with
        | Ok _ => Ok (Success task url (ls_steps ls) (ls_status ls)
                        (Z.of_nat (List.length (ls_steps ls)) - 1))
        | Raise e => Raise e
        end
  | (Raise e, _, _) =>
      autonomous_process w url task max_steps =
        match w_close w with
        | Ok _ => Ok (Failure e)
        | Raise e' => Raise e'
        end
  end.
Proof.
  unfold autonomous_process.
  destruct (create_session (w_session w) url new_agent) as [[[s|e] ag] l];
    unfold close_session, bind, perform, modify;
    destruct (w_close w); reflexivity.
Qed.

(** C3: in the reply of a run, the trace holds the initial record and one
    record for each executed iteration of the loop, and [total_steps] is the
    length of the trace minus one; every execution of the loop body appends
    exactly one record. *)
Theorem one_record_per_iteration w url task max_steps task' url' steps
    final_status total_steps :
  autonomous_process w url task max_steps
    = Ok (Success task' url' steps final_status total_steps) ->
  (exists s ag l,
     create_session (w_session w) url new_agent = (Ok s, ag, l)
     /\ let ls := session_loop w url task max_steps s ag in
        steps = ls_steps ls
        /\ List.length steps = S (ls_iterations ls)
        /\ total_steps = Z.of_nat (List.length steps) - 1
        /\ total_steps = Z.of_nat (ls_iterations ls))
  /\ (forall env ls,
        let ls' := fst (loop_body env task ls) in
        ls_iterations ls' = S (ls_iterations ls)
        /\ exists r, ls_steps ls' = (ls_steps ls ++ [r])%list).
Proof.
  intros H. split.
  - pose proof (autonomous_process_cases w url task max_steps) as Hc.
    destruct (create_session (w_session w) url new_agent) as [[[s|e] ag] l].
    + cbv zeta in Hc. rewrite Hc in H. destruct (w_close w); [|discriminate].
      injection H as _ _ Hsteps _ Htotal. subst steps total_steps.
      exists s, ag, l. split; [reflexivity|].
      destruct (sound_while max_steps (w_steps w) task _
                  (sound_initial max_steps url s ag)) as (Hlen & _).
      fold (session_loop w url task max_steps s ag) in Hlen.
      cbv zeta. rewrite Hlen. repeat split; lia.
    + rewrite Hc in H. destruct (w_close w); discriminate.
  - intros env ls ls'. subst ls'.
    destruct (loop_body env task ls) as [ls' stop] eqn:E.
    apply loop_body_cases in E. destruct E as (_ & Hit & (r & Hs & _) & _).
    simpl. eauto.
Qed.

Lemma one_record_per_iteration_witness :
  exists s ag l,
    create_session good_session "https://example.com" new_agent = (Ok s, ag, l)
    /\ let ls := session_loop four_scrolls "https://example.com" "find" 10 s ag in
       List.length (ls_steps ls) = S (ls_iterations ls).
Proof.
  destruct (one_record_per_iteration four_scrolls "https://example.com" "find" 10
              "find" "https://example.com"
              (ls_steps (session_loop four_scrolls "https://example.com" "find" 10
                 {| s_session_id := "session_1700000000";
                    s_url := "https://example.com"; s_screenshot := "start";
                    s_status := CONTINUE |}
                 (snd (fst (create_session good_session "https://example.com"
                              new_agent)))))
              COMPLETE 5 eq_refl) as [(s & ag & l & Hs & _ & Hlen & _) _].
  exists s, ag, l. split; [exact Hs|].
  inversion Hs; subst. exact Hlen.
Defined.

(** The loop of a session when it has ended. *)
Lemma session_loop_ends w url task max_steps s ag :
  let ls := session_loop w url task max_steps s ag in
  Z.of_nat (ls_iterations ls) <= Z.max 0 max_steps
  /\ (ls_status ls = CONTINUE ->
      max_steps < ls_step ls /\ Z.of_nat (ls_iterations ls) = Z.max 0 max_steps)
  /\ (exists init r,
        ls_steps ls = (init ++ [r])%list /\ sr_status r = ls_status ls
        /\ Forall (fun x => sr_status x = CONTINUE) init).
Proof.
  intros ls.
  destruct (sound_while max_steps (w_steps w) task _
              (sound_initial max_steps url s ag)) as (_ & Hbound & Hstep & Htrace).
  pose proof (while_loop_exit (w_steps w) task max_steps (initial_state url s ag))
    as Hexit.
  fold (session_loop w url task max_steps s ag) in Hbound, Hstep, Htrace, Hexit.
  fold ls in Hbound, Hstep, Htrace, Hexit.
  split; [exact Hbound|]. split; [|exact Htrace].
  intros Hst. specialize (Hstep Hst).
  unfold loop_condition in Hexit. rewrite Hst in Hexit. simpl in Hexit.
  apply Z.leb_gt in Hexit. lia.
Qed.

(** C4: the loop of a session ends after at most [max_steps] executions of
    its body.  If it ends with status CONTINUE the step counter has passed
    [max_steps] and exactly [max_steps] iterations were executed (none when
    [max_steps] is below 1); otherwise the status is COMPLETE, FAILED or
    ERROR, it is the status of the last record, and no earlier record has a
    status other than CONTINUE: the loop stopped at the first one. *)
Theorem loop_within_budget w url task max_steps s ag :
  let ls := session_loop w url task max_steps s ag in
  Z.of_nat (ls_iterations ls) <= Z.max 0 max_steps
  /\ (ls_status ls = CONTINUE ->
      max_steps < ls_step ls /\ Z.of_nat (ls_iterations ls) = Z.max 0 max_steps)
  /\ (exists init r,
        ls_steps ls = (init ++ [r])%list /\ sr_status r = ls_status ls
        /\ Forall (fun x => sr_status x = CONTINUE) init)
  /\ loop_condition max_steps ls = false.
Proof.
  intros ls.
  destruct (session_loop_ends w url task max_steps s ag) as (H1 & H2 & H3).
  repeat split; try assumption; try (apply H2; assumption).
  apply while_loop_exit.
Qed.

(** C7, as the code has it: (1) the executor always returns a response, and
    when an operation on the page raised while it ran, the response has
    status ERROR and its message ends with the text of the exception;
    (2) when [execute_task] raises in an iteration, the loop ends there
    with status ERROR and an ERROR record carrying the text of the
    exception; (3) once the session has been created, and when closing it
    does not raise, the driver returns a trace whose last record has the
    final status, which is CONTINUE only when the step budget is used up;
    (4) when closing the session raises, the driver raises that exception
    to its caller, whatever the run produced. *)
Theorem faults_are_contained :
  (forall pg action ag,
     exists resp ag' l,
       execute_action pg action ag = (Ok resp, ag', l)
       /\ forall ev e, In ev l -> ev_fault ev = Some e ->
            r_status resp = ERROR /\ exists what, r_message resp = what ++ e)
  /\ (forall envs task max_steps ls e ag' l,
        loop_condition max_steps ls = true ->
        execute_task (envs (ls_step ls)) task (ls_agent ls) = (Raise e, ag', l) ->
        let ls' := while_loop envs task max_steps ls in
        ls_status ls' = ERROR
        /\ ls_steps ls' =
             (ls_steps ls ++ [{| sr_step_number := ls_step ls; sr_action := "ERROR";
                                 sr_status := ERROR; sr_screenshot := EmptyString;
                                 sr_message := "Error: " ++ e |}])%list)
  /\ (forall w url task max_steps s ag l u,
        create_session (w_session w) url new_agent = (Ok s, ag, l) ->
        w_close w = Ok u ->
        exists steps last final_status,
          autonomous_process w url task max_steps =
            Ok (Success task url (steps ++ [last]) final_status
                  (Z.of_nat (List.length steps)))
          /\ sr_status last = final_status
          /\ (final_status = CONTINUE ->
              Z.of_nat (List.length steps) = Z.max 0 max_steps))
  /\ (forall w url task max_steps e,
        w_close w = Raise e ->
        autonomous_process w url task max_steps = Raise e).
Proof.
  split; [|split; [|split]].
  4:{ intros w url task max_steps e Hclose.
      pose proof (autonomous_process_cases w url task max_steps) as Hc.
      rewrite Hclose in Hc.
      destruct (create_session (w_session w) url new_agent) as [[[s|e'] ag] l];
        exact Hc. }
  - intros pg action ag.
    destruct (execute_action_accounted pg action ag)
      as (resp & ag' & l & Heq & Hacc).
    exists resp, ag', l. split; [exact Heq|].
    intros ev e Hin He. destruct Hacc as [Hclean | (e0 & Hf & Hrep)].
    + exfalso. eapply clean_no_fault; eauto.
    + rewrite (faulted_unique _ _ _ _ Hf Hin He). exact Hrep.
  - intros envs task max_steps ls e ag' l Hc Hraise ls'. subst ls'.
    destruct (loop_body_raise _ _ _ _ _ _ Hraise) as (ls' & Hb & Hst & Hsteps).
    rewrite while_loop_eq, Hc, Hb. auto.
  - intros w url task max_steps s ag l u Hcreate Hclose.
    pose proof (autonomous_process_cases w url task max_steps) as Hc.
    rewrite Hcreate, Hclose in Hc. cbv zeta in Hc.
    destruct (session_loop_ends w url task max_steps s ag)
      as (_ & Hcont & init & r & Hsteps & Hr & _).
    destruct (sound_while max_steps (w_steps w) task _
                (sound_initial max_steps url s ag)) as (Hlen & _).
    fold (session_loop w url task max_steps s ag) in Hlen.
    exists init, r, (ls_status (session_loop w url task max_steps s ag)).
    rewrite Hc, Hsteps. rewrite Hsteps in Hlen.
    rewrite length_app in *. simpl in *.
    split; [|split; [exact Hr|]].
    + do 2 f_equal. lia.
    + intros Hst. destruct (Hcont Hst) as [_ Hn]. lia.
Qed.

Lemma faults_are_contained_witness :
  let ls := session_loop crash_at_two "https://example.com" "find" 5
              {| s_session_id := "session_1700000000"; s_url := "https://example.com";
                 s_screenshot := "start"; s_status := CONTINUE |}
              (snd (fst (create_session good_session "https://example.com" new_agent))) in
  ls_status ls = ERROR
  /\ List.length (ls_steps ls) = 3%nat
  /\ exists steps last final_status,
       autonomous_process crash_at_two "https://example.com" "find" 5 =
         Ok (Success "find" "https://example.com" (steps ++ [last]) final_status
               (Z.of_nat (List.length steps)))
       /\ sr_status last = final_status
       /\ (final_status = CONTINUE -> Z.of_nat (List.length steps) = Z.max 0 5).
Proof.
  destruct faults_are_contained as (_ & Hloop & Hrun & _).
  split; [|split].
  - unfold session_loop. rewrite while_loop_eq.
    change (ls_status
              (while_loop (w_steps crash_at_two) "find" 5
                 (fst (loop_body (w_steps crash_at_two 1) "find"
                         (initial_state "https://example.com"
                            {| s_session_id := "session_1700000000";
                               s_url := "https://example.com";
                               s_screenshot := "start"; s_status := CONTINUE |}
                            (snd (fst (create_session good_session
                                         "https://example.com" new_agent)))))))
            = ERROR).
    eapply (Hloop (w_steps crash_at_two) "find" 5 _ "Target closed");
      [reflexivity | vm_compute; reflexivity].
  - vm_compute. reflexivity.
  - exact (Hrun crash_at_two "https://example.com" "find" 5 _ _ _ tt
             eq_refl eq_refl).
Defined.

(** A run in which the page is lost in the first iteration and closing the
    session raises as well: the iteration fails inside the loop, and the
    driver, instead of returning the trace with the ERROR record, raises
    to its caller. *)
Lemma teardown_fault_loses_trace :
  fst (fst (execute_task (w_steps teardown_fails 1) "find" example_agent))
    = Raise "Target closed"
  /\ autonomous_process teardown_fails "https://example.com" "find" 5
     = Raise "Browser closed"
  /\ ~ exists reply,
        autonomous_process teardown_fails "https://example.com" "find" 5 = Ok reply.
Proof.
  split; [reflexivity|]. split; [reflexivity|].
  intros [reply H]. vm_compute in H. discriminate.
Qed.

(** ** Repeated directives *)

Lemma visits_step envs task max_steps start ls :
  visits envs task max_steps start ls ->
  loop_condition max_steps ls = true ->
  snd (loop_body (envs (ls_step ls)) task ls) = false ->
  visits envs task max_steps start (next_state envs task ls).
Proof.
  intros Hv Hc Hs. eapply visits_next; [exact Hv | exact Hc |].
  unfold next_state. destruct (loop_body _ _ _) as [ls' stop]. simpl in *.
  subst. reflexivity.
Qed.

Lemma streak_head a full :
  full <> [] ->
  Z.of_nat (streak a full) =
    if (a =? hd EmptyString full)%string
    then Z.of_nat (streak (hd EmptyString full) (tl full)) + 1 else 0.
Proof.
  destruct full as [|b t]; [congruence|]. intros _. simpl.
  destruct (String.eqb_spec a b); [subst; lia | reflexivity].
Qed.

Lemma streak_app_ge a h x : (streak a h <= streak a (h ++ x))%nat.
Proof.
  induction h as [|b h IH]; simpl; [lia|].
  destruct (a =? b)%string; lia.
Qed.

Lemma streak_app_le a h b : (streak a (h ++ [b]) <= S (streak a h))%nat.
Proof.
  induction h as [|c h IH]; simpl.
  - destruct (a =? b)%string; lia.
  - destruct (a =? c)%string; lia.
Qed.

Lemma streak_app_neq a h b : a <> b -> streak a (h ++ [b]) = streak a h.
Proof.
  intros Hab. induction h as [|c h IH]; simpl.
  - apply String.eqb_neq in Hab. rewrite Hab. reflexivity.
  - destruct (a =? c)%string; congruence.
Qed.

(** The check for repeated actions, as a function of the counter it leaves. *)
Lemma check_repeated_spec last rep result r la ra :
  check_repeated last rep result = (r, la, ra) ->
  let a := tr_action result in
  let n := if (a =? last)%string then rep + 1 else 0 in
  la = a /\ ra = n /\ tr_action r = a /\ tr_screenshot r = tr_screenshot result
  /\ (tr_status r, tr_message r) =
       if (3 <=? n) && negb (PyStr.contains "SCROLL" a)
       then (COMPLETE, "Stopping due to repeated actions")
       else if (4 <=? n) && PyStr.contains "SCROLL" a
       then (COMPLETE, "Finished exploring page content")
       else (tr_status result, tr_message result).
Proof.
  unfold check_repeated. intros H. cbv zeta.
  destruct (String.eqb_spec (tr_action result) last) as [Heq|Hne].
  - destruct ((3 <=? rep + 1) && negb (PyStr.contains "SCROLL" (tr_action result))).
    + inversion H; subst. cbn. auto.
    + destruct ((4 <=? rep + 1) && PyStr.contains "SCROLL" (tr_action result));
        inversion H; subst; cbn; auto.
  - inversion H; subst. cbn. auto.
Qed.

Lemma tl_snoc {A} (l : list A) x : l <> [] -> tl (l ++ [x]) = (tl l ++ [x])%list.
Proof. destruct l; [congruence | reflexivity]. Qed.

Lemma full_nonempty (d : list string) : (rev d ++ [EmptyString])%list <> [].
Proof. destruct (rev d); discriminate. Qed.

(** An iteration in which [execute_task] returns: the record it appends. *)
Lemma counted_body env task ls result ag l :
  counted ls ->
  execute_task env task (ls_agent ls) = (Ok result, ag, l) ->
  let a := tr_action result in
  let n := Z.of_nat (streak a (rev (directives ls) ++ [EmptyString])) in
  exists ls' r,
    loop_body env task ls = (ls', is_terminal (sr_status r))
    /\ ls_steps ls' = (ls_steps ls ++ [r])%list
    /\ ls_status ls' = sr_status r
    /\ sr_action r = a
    /\ (sr_status r, sr_message r) =
         (if (3 <=? n) && negb (PyStr.contains "SCROLL" a)
          then (COMPLETE, "Stopping due to repeated actions")
          else if (4 <=? n) && PyStr.contains "SCROLL" a
          then (COMPLETE, "Finished exploring page content")
          else (tr_status result, tr_message result))
    /\ counted ls'.
Proof.
  intros (Hne & Hlast & Hrep) Hexec a n. cbv zeta in Hlast, Hrep.
  unfold loop_body. rewrite Hexec.
  destruct (check_repeated _ _ result) as [[r la] ra] eqn:Hcr.
  apply check_repeated_spec in Hcr. cbv zeta in Hcr.
  destruct Hcr as (Hla & Hra & Hact & _ & Hover).
  rewrite Hlast, Hrep, <- (streak_head _ _ (full_nonempty _)) in Hra, Hover.
  eexists _, {| sr_step_number := ls_step ls; sr_action := tr_action r;
                sr_status := tr_status r; sr_screenshot := tr_screenshot r;
                sr_message := tr_message r |}.
  split; [reflexivity|]. cbn.
  repeat split; try assumption.
  - destruct (ls_steps ls); [congruence | discriminate].
  - unfold directives. cbn [ls_steps].
    rewrite (tl_snoc _ _ Hne), map_app, rev_app_distr. cbn. congruence.
  - unfold directives in *. cbn [ls_steps].
    rewrite (tl_snoc _ _ Hne), map_app, rev_app_distr. cbn.
    rewrite Hact. exact Hra.
Qed.

Lemma counted_initial url s ag : counted (initial_state url s ag).
Proof. split; [discriminate|]. cbn. auto. Qed.

Lemma counted_visits envs task max_steps url s ag ls :
  visits envs task max_steps (initial_state url s ag) ls -> counted ls.
Proof.
  induction 1 as [|ls ls' Hv IH Hc Hb]; [apply counted_initial|].
  destruct (execute_task (envs (ls_step ls)) task (ls_agent ls))
    as [[[result|e] ag'] l] eqn:Hexec.
  - destruct (counted_body _ _ _ _ _ _ IH Hexec) as (ls1 & r & Hb1 & _ & _ & _ & _ & Hcnt).
    rewrite Hb in Hb1. inversion Hb1; subst. exact Hcnt.
  - destruct (loop_body_raise _ _ _ _ _ _ Hexec) as (ls1 & Hb1 & _).
    rewrite Hb in Hb1. discriminate.
Qed.

(** C1, as the code has it.  In an iteration of a session in which
    [execute_task] returns the directive [a], let [k] be the number of
    iterations just before it, without interruption, whose directive is
    identical to [a].  The record of the iteration carries [a], and:
    with [k >= 3] and no SCROLL in [a], its status is COMPLETE with the
    message about repeated actions; with [k >= 4] and SCROLL in [a], its
    status is COMPLETE with the message about exploring; with SCROLL in [a]
    and [k <= 3], or with [k <= 1], or with [k <= 2] and [a] not empty,
    status and message are those [execute_task] returned. *)
Theorem repetition_policy envs task max_steps url s ag ls result ag' l :
  visits envs task max_steps (initial_state url s ag) ls ->
  execute_task (envs (ls_step ls)) task (ls_agent ls) = (Ok result, ag', l) ->
  let a := tr_action result in
  let k := streak a (rev (directives ls)) in
  let kept r := sr_status r = tr_status result /\ sr_message r = tr_message result in
  exists r,
    ls_steps (next_state envs task ls) = (ls_steps ls ++ [r])%list
    /\ ls_status (next_state envs task ls) = sr_status r
    /\ sr_action r = a
    /\ ((3 <= k)%nat -> PyStr.contains "SCROLL" a = false ->
        sr_status r = COMPLETE /\ sr_message r = "Stopping due to repeated actions")
    /\ ((4 <= k)%nat -> PyStr.contains "SCROLL" a = true ->
        sr_status r = COMPLETE /\ sr_message r = "Finished exploring page content")
    /\ ((k <= 3)%nat -> PyStr.contains "SCROLL" a = true -> kept r)
    /\ ((k <= 1)%nat -> kept r)
    /\ ((k <= 2)%nat -> a <> EmptyString -> kept r).
Proof.
  intros Hv Hexec a k kept.
  apply counted_visits in Hv.
  destruct (counted_body _ _ _ _ _ _ Hv Hexec) as (ls' & r & Hb & Hsteps & Hst & Hact & Hover & _).
  fold a in Hover, Hact.
  pose proof (streak_app_ge a (rev (directives ls)) [EmptyString]) as Hge.
  pose proof (streak_app_le a (rev (directives ls)) EmptyString) as Hle.
  pose proof (streak_app_neq a (rev (directives ls)) EmptyString) as Hneq.
  fold k in Hge, Hle, Hneq.
  set (n := streak a (rev (directives ls) ++ [EmptyString])) in *.
  assert (Hscroll : PyStr.contains "SCROLL" a = true -> n = k).
  { intros Hs. apply Hneq. intros ->. discriminate. }
  exists r. unfold next_state. rewrite Hb. cbn [fst].
  split; [exact Hsteps|]. split; [exact Hst|]. split; [exact Hact|].
  subst kept. cbv beta.
  repeat split; intros;
    try (match goal with
         | H : PyStr.contains "SCROLL" a = true |- _ =>
             specialize (Hscroll H); rewrite H in Hover
         | H : PyStr.contains "SCROLL" a = false |- _ => rewrite H in Hover
         | H : a <> EmptyString |- _ => specialize (Hneq H)
         end);
    repeat match type of Hover with
           | context [?x <=? ?y] =>
               let E := fresh "E" in
               destruct (Z.leb_spec x y) as [E|E]; try lia
           end;
    cbn in Hover;
    try (destruct (PyStr.contains "SCROLL" a); cbn in Hover);
    inversion Hover; reflexivity.
Qed.

(** Four identical SCROLL directives in a row do not end the run: the model
    answers SCROLL four times, every one of these steps has status
    CONTINUE, and the run goes on to a fifth step. *)
Lemma four_identical_scrolls_continue :
  exists steps,
    autonomous_process four_scrolls "https://example.com" "find" 10
      = Ok (Success "find" "https://example.com" steps COMPLETE 5)
    /\ map sr_action steps =
         ["Started session on https://example.com";
          "SCROLL"; "SCROLL"; "SCROLL"; "SCROLL"; "TASK_COMPLETE"]
    /\ map sr_status steps =
         [CONTINUE; CONTINUE; CONTINUE; CONTINUE; CONTINUE; COMPLETE]
    /\ map sr_message steps =
         ["Session initialized";
          "Scrolled down to explore more content";
          "Scrolled down to explore more content";
          "Scrolled down to explore more content";
          "Scrolled down to explore more content";
          "Task completed successfully"]
    /\ nth 4 (map sr_status steps) COMPLETE <> COMPLETE.
Proof.
  eexists. repeat split; try (vm_compute; reflexivity).
  vm_compute. discriminate.
Qed.

Lemma repetition_policy_witness :
  let envs := w_steps (stubborn "CLICK link 'Next'") in
  let ls3 :=
    next_state envs "find"
      (next_state envs "find"
         (next_state envs "find"
            (initial_state "https://example.com" example_session example_agent))) in
  exists r,
    ls_steps (next_state envs "find" ls3) = (ls_steps ls3 ++ [r])%list
    /\ sr_action r = "CLICK link 'Next'"
    /\ sr_status r = COMPLETE
    /\ sr_message r = "Stopping due to repeated actions".
Proof.
  intros envs ls3.
  assert (Hv : visits envs "find" 10
                 (initial_state "https://example.com" example_session example_agent)
                 ls3).
  { repeat (apply visits_step; [| reflexivity | reflexivity]).
    apply visits_start. }
  destruct (repetition_policy envs "find" 10 "https://example.com" example_session
              example_agent ls3
              {| tr_step := 4; tr_action := "CLICK link 'Next'";
                 tr_url := Some "https://example.com"; tr_screenshot := "after";
                 tr_status := CONTINUE;
                 tr_message := "No suitable element found to click" |}
              (set_step_count 4 example_agent)
              (snd (execute_task (envs 4) "find" (ls_agent ls3)))
              Hv eq_refl)
    as (r & Hsteps & _ & Hact & Hstop & _).
  exists r. split; [exact Hsteps|]. split; [exact Hact|].
  apply Hstop; [vm_compute; lia | reflexivity].
Defined.

(** ** What the executor leaves alone *)

Lemma frames_ret {A} (a : A) : frames (ret a).
Proof. intros s. reflexivity. Qed.

Lemma frames_raise {A} e : frames (@raise A e).
Proof. intros s. reflexivity. Qed.

Lemma frames_get {A} (f : agent -> A) : frames (get f).
Proof. intros s. reflexivity. Qed.

Lemma frames_perform {A} c (r : result A) : frames (perform c r).
Proof. intros s. reflexivity. Qed.

Lemma frames_bind {A B} (m : M A) (k : A -> M B) :
  frames m -> (forall a, frames (k a)) -> frames (bind m k).
Proof.
  intros Hm Hk s. unfold bind. specialize (Hm s).
  destruct (m s) as [[[a|e] s1] l1]; simpl in *; [|exact Hm].
  specialize (Hk a s1). destruct (k a s1) as [[r s2] l2]. simpl in *. congruence.
Qed.

Lemma frames_try {A} (m : M A) h :
  frames m -> (forall e, frames (h e)) -> frames (try_except m h).
Proof.
  intros Hm Hh s. unfold try_except. specialize (Hm s).
  destruct (m s) as [[[a|e] s1] l1]; simpl in *; [exact Hm|].
  specialize (Hh e s1). destruct (h e s1) as [[r s2] l2]. simpl in *. congruence.
Qed.

Ltac frame :=
  repeat first
    [ apply frames_bind; [|intros ?]
    | apply frames_try; [|intros ?]
    | apply frames_ret | apply frames_get | apply frames_perform
    | apply frames_raise
    | match goal with
      | |- frames (match ?x with _ => _ end) => destruct x
      | |- frames (if ?b then _ else _) => destruct b
      end ].

Lemma frames_click_matching pg what settle target els :
  frames (click_matching pg what settle target els).
Proof.
  induction els as [|el els IH]; simpl.
  - frame.
  - apply frames_bind; [apply frames_perform | intros text].
    destruct (PyStr.contains _ _); [|exact IH].
    unfold click, wait_for_timeout. frame.
Qed.

Lemma frames_fill_first_match pg field_name value selectors :
  frames (fill_first_match pg field_name value selectors).
Proof.
  induction selectors as [|sel sels IH]; simpl.
  - frame.
  - destruct (PyStr.is_empty sel); [exact IH|].
    apply frames_bind; [apply frames_perform | intros [e|]]; [|exact IH].
    unfold fill, wait_for_timeout. frame.
Qed.

Lemma frames_click_body pg action : frames (click_body pg action).
Proof.
  unfold click_body, click_button, click_link, query_selector_all,
    query_selector, click, wait_for_timeout.
  destruct (PyStr.contains "button" _); [|destruct (PyStr.contains "link" _)].
  - apply frames_bind.
    + destruct (quoted_target action); [|frame].
      apply frames_bind; [frame | intros; apply frames_click_matching].
    + intros [r|]; frame.
  - apply frames_bind.
    + destruct (quoted_target action); [|frame].
      apply frames_bind; [frame | intros; apply frames_click_matching].
    + intros [r|]; frame.
  - frame.
Qed.

Lemma frames_fill_body pg action : frames (fill_body pg action).
Proof.
  unfold fill_body, fill_field, query_selector, fill, wait_for_timeout.
  destruct (3 <=? _)%nat; [|frame].
  apply frames_bind; [apply frames_fill_first_match|].
  intros [r|]; frame.
Qed.

Lemma frames_scroll_body pg : frames (scroll_body pg).
Proof. unfold scroll_body, scroll_by, wait_for_timeout. frame. Qed.

Lemma frames_search_body pg action : frames (search_body pg action).
Proof.
  unfold search_body, query_selector, fill, keyboard_press, scroll_by,
    wait_for_timeout. frame.
Qed.

Lemma frames_unknown_body pg action : frames (unknown_body pg action).
Proof. unfold unknown_body, scroll_by, wait_for_timeout. frame. Qed.

Lemma frames_report_error what e : frames (report_error what e).
Proof. intros s. reflexivity. Qed.

(** An [except] clause around a [try] that reports every exception is idle. *)
Lemma try_report_twice (m : M response) what (h : string -> M response) s :
  try_except (try_except m (report_error what)) h s
  = try_except m (report_error what) s.
Proof.
  unfold try_except, report_error, ret.
  destruct (m s) as [[[r|e] s1] l1]; reflexivity.
Qed.

(** The NAVIGATE branch either leaves the agent as it was or writes the
    destination into [current_url]. *)
Lemma navigate_body_agent pg action s :
  let s' := snd (fst (try_except (navigate_body pg action)
                        (report_error "Navigation failed: ") s)) in
  s' = s
  \/ (s' = set_current_url (navigate_url action) s
      /\ PyStr.contains "http" action = true).
Proof.
  unfold navigate_body. destruct (PyStr.contains "http" action); [|left; reflexivity].
  unfold navigate_to, goto, wait_for_timeout, try_except, bind, perform, modify,
    ret, report_error.
  destruct (pg_goto pg (navigate_url action)); [|left; reflexivity].
  destruct (pg_wait_for_timeout pg 3000); [right; split; reflexivity | left; reflexivity].
Qed.

Lemma execute_action_agent pg action ag :
  let ag' := snd (fst (execute_action pg action ag)) in
  ag' = ag
  \/ (ag' = set_current_url (navigate_url action) ag
      /\ PyStr.startswith "NAVIGATE" (PyStr.upper action) = true
      /\ PyStr.contains "http" action = true).
Proof.
  cbv zeta. unfold execute_action, dispatch.
  destruct (PyStr.contains "TASK_COMPLETE" _); [left; reflexivity|].
  destruct (PyStr.contains "TASK_FAILED" _); [left; reflexivity|].
  destruct (PyStr.startswith "CLICK" _).
  { left. apply (frames_try _ _ (frames_try _ _ (frames_click_body pg action)
                   (frames_report_error _)) (frames_report_error _)). }
  destruct (PyStr.startswith "FILL" _).
  { left. apply (frames_try _ _ (frames_try _ _ (frames_fill_body pg action)
                   (frames_report_error _)) (frames_report_error _)). }
  destruct (PyStr.startswith "SCROLL" _).
  { left. apply (frames_try _ _ (frames_scroll_body pg) (frames_report_error _)). }
  destruct (PyStr.startswith "NAVIGATE" _) eqn:Hnav.
  { pose proof (navigate_body_agent pg action ag) as H. cbv zeta in H.
    rewrite try_report_twice. intuition. }
  destruct (PyStr.startswith "SEARCH" _).
  { left. apply (frames_try _ _ (frames_try _ _ (frames_search_body pg action)
                   (frames_report_error _)) (frames_report_error _)). }
  left. apply (frames_try _ _ (frames_unknown_body pg action) (frames_report_error _)).
Qed.

(** The executor touches no attribute of the agent but [current_url], and
    that one only in a NAVIGATE directive that holds "http": afterwards
    the agent is as before, or as before with the destination of the
    directive as its [current_url]. *)
Theorem execute_action_frame pg action ag :
  let ag' := snd (fst (execute_action pg action ag)) in
  ag' = ag
  \/ (ag' = set_current_url (navigate_url action) ag
      /\ PyStr.startswith "NAVIGATE" (PyStr.upper action) = true
      /\ PyStr.contains "http" action = true).
Proof. exact (execute_action_agent pg action ag). Qed.

(** The step counter, the page and the session survive the executor. *)
Lemma execute_action_keeps pg action ag :
  let ag' := snd (fst (execute_action pg action ag)) in
  step_count ag' = step_count ag /\ page_open ag' = page_open ag
  /\ session_id ag' = session_id ag /\ screenshot ag' = screenshot ag.
Proof.
  intros ag'. destruct (execute_action_agent pg action ag) as [H|[H _]];
    fold ag' in H; rewrite H; repeat split.
Qed.

(** ** The status the executor returns *)

Lemma bind_ok {A B} (m : M A) (k : A -> M B) s b s2 l :
  bind m k s = (Ok b, s2, l) ->
  exists a s1 l1 l2,
    m s = (Ok a, s1, l1) /\ k a s1 = (Ok b, s2, l2) /\ l = (l1 ++ l2)%list.
Proof.
  unfold bind. destruct (m s) as [[[a|e] s1] l1]; [|discriminate].
  destruct (k a s1) as [[r s2'] l2] eqn:E. intros H. inversion H; subst.
  exists a, s1, l1, l2. auto.
Qed.

Lemma returns_ret {A} (P : A -> Prop) a : P a -> returns P (ret a).
Proof. intros H s a' s' l E. inversion E; subst. exact H. Qed.

Lemma returns_bind {A B} (Q : A -> Prop) (P : B -> Prop) (m : M A) (k : A -> M B) :
  returns Q m -> (forall a, Q a -> returns P (k a)) -> returns P (bind m k).
Proof.
  intros Hm Hk s b s2 l E. apply bind_ok in E.
  destruct E as (a & s1 & l1 & l2 & Em & Ek & _).
  eapply Hk; [eapply Hm; exact Em | exact Ek].
Qed.

Lemma returns_any {A} (m : M A) : returns (fun _ => True) m.
Proof. intros s a s' l _. exact I. Qed.

Lemma returns_then {A B} (P : B -> Prop) (m : M A) (k : A -> M B) :
  (forall a, returns P (k a)) -> returns P (bind m k).
Proof. intros Hk. apply (returns_bind (fun _ => True)); auto using returns_any. Qed.

Ltac go_on :=
  repeat first
    [ apply returns_then; intros ?
    | apply returns_ret; reflexivity
    | match goal with
      | |- returns _ (match ?x with _ => _ end) => destruct x
      | |- returns _ (if ?b then _ else _) => destruct b
      end ].

Lemma returns_click_matching pg what settle target els :
  returns found_goes_on (click_matching pg what settle target els).
Proof.
  induction els as [|el els IH]; simpl.
  - apply returns_ret. intros r H. discriminate.
  - apply returns_then. intros text.
    destruct (PyStr.contains _ _); [|exact IH].
    do 2 (apply returns_then; intros ?).
    apply returns_ret. intros r H. inversion H. reflexivity.
Qed.

Lemma returns_fill_first_match pg field_name value selectors :
  returns found_goes_on (fill_first_match pg field_name value selectors).
Proof.
  induction selectors as [|sel sels IH]; simpl.
  - apply returns_ret. intros r H. discriminate.
  - destruct (PyStr.is_empty sel); [exact IH|].
    apply returns_then. intros [e|]; [|exact IH].
    do 2 (apply returns_then; intros ?).
    apply returns_ret. intros r H. inversion H. reflexivity.
Qed.

Lemma returns_click_body pg action : returns goes_on (click_body pg action).
Proof.
  unfold click_body, click_button, click_link.
  destruct (PyStr.contains "button" _); [|destruct (PyStr.contains "link" _)].
  - apply (returns_bind found_goes_on).
    + destruct (quoted_target action).
      * apply returns_then. intros. apply returns_click_matching.
      * apply returns_ret. intros r H. discriminate.
    + intros [r|] H; [apply returns_ret; apply H; reflexivity | go_on].
  - apply (returns_bind found_goes_on).
    + destruct (quoted_target action).
      * apply returns_then. intros. apply returns_click_matching.
      * apply returns_ret. intros r H. discriminate.
    + intros [r|] H; [apply returns_ret; apply H; reflexivity | go_on].
  - go_on.
Qed.

Lemma returns_fill_body pg action : returns goes_on (fill_body pg action).
Proof.
  unfold fill_body, fill_field.
  destruct (3 <=? _)%nat; [|go_on].
  apply (returns_bind found_goes_on); [apply returns_fill_first_match|].
  intros [r|] H; [apply returns_ret; apply H; reflexivity | go_on].
Qed.

Lemma returns_scroll_body pg : returns goes_on (scroll_body pg).
Proof. unfold scroll_body. go_on. Qed.

Lemma returns_navigate_body pg action : returns goes_on (navigate_body pg action).
Proof. unfold navigate_body, navigate_to. go_on. Qed.

Lemma returns_search_body pg action : returns goes_on (search_body pg action).
Proof. unfold search_body. go_on. Qed.

Lemma returns_unknown_body pg action : returns goes_on (unknown_body pg action).
Proof. unfold unknown_body. go_on. Qed.

Lemma graded_of_tracked (m : M response) s :
  tracked m -> returns goes_on m -> graded (m s).
Proof.
  intros Ht Hr. specialize (Ht s). specialize (Hr s).
  destruct (m s) as [[[r|e] s1] l]; simpl in *; [|exact Ht].
  left. split; [exact Ht | eapply Hr; reflexivity].
Qed.

Lemma graded_try (m : M response) what s :
  graded (m s) -> graded (try_except m (report_error what) s).
Proof.
  unfold try_except, report_error, ret.
  destruct (m s) as [[[r|e] s1] l]; simpl; intros H; [exact H|].
  rewrite app_nil_r. right. exists e. split; [exact H|].
  split; [reflexivity | exists what; reflexivity].
Qed.

Lemma graded_dispatch pg action s :
  PyStr.contains "TASK_COMPLETE" (PyStr.upper action) = false ->
  PyStr.contains "TASK_FAILED" (PyStr.upper action) = false ->
  graded (dispatch pg action s).
Proof.
  intros Hc Hf. unfold dispatch. rewrite Hc, Hf.
  repeat match goal with
         | |- graded ((if ?b then _ else _) _) => destruct b
         end;
    try apply graded_try; apply graded_of_tracked;
    auto using tracked_click_body, tracked_fill_body, tracked_scroll_body,
      tracked_navigate_body, tracked_search_body, tracked_unknown_body,
      returns_click_body, returns_fill_body, returns_scroll_body,
      returns_navigate_body, returns_search_body, returns_unknown_body.
Qed.

Lemma faulted_has_fault e l : faulted e l -> has_fault l.
Proof.
  intros (l0 & c & -> & _). exists {| ev_call := c; ev_fault := Some e |}, e.
  split; [apply in_or_app; right; left; reflexivity | reflexivity].
Qed.

Lemma clean_not_has_fault l : clean l -> ~ has_fault l.
Proof. intros Hc (ev & e & Hin & He). eapply clean_no_fault; eauto. Qed.

(** The status of the executor's response says what happened: it is
    COMPLETE exactly when the directive, in upper case, holds TASK_COMPLETE;
    FAILED exactly when it holds TASK_FAILED and not TASK_COMPLETE; ERROR
    exactly when an operation on the page raised; a marker directive
    performs no operation at all. *)
Theorem execute_action_status pg action ag resp ag' l :
  execute_action pg action ag = (Ok resp, ag', l) ->
  let complete := PyStr.contains "TASK_COMPLETE" (PyStr.upper action) in
  let failed := PyStr.contains "TASK_FAILED" (PyStr.upper action) in
  (r_status resp = COMPLETE <-> complete = true)
  /\ (r_status resp = FAILED <-> complete = false /\ failed = true)
  /\ (r_status resp = ERROR <-> has_fault l)
  /\ (complete = true \/ failed = true -> l = []).
Proof.
  intros H complete failed. subst complete failed.
  unfold execute_action in H.
  assert (Hnil : ~ has_fault []) by (intros (ev & e & [] & _)).
  destruct (PyStr.contains "TASK_COMPLETE" (PyStr.upper action)) eqn:Hc.
  { unfold dispatch in H. rewrite Hc in H. inversion H; subst. cbn.
    intuition (try discriminate). }
  destruct (PyStr.contains "TASK_FAILED" (PyStr.upper action)) eqn:Hf.
  { unfold dispatch in H. rewrite Hc, Hf in H. inversion H; subst. cbn.
    intuition (try discriminate). }
  pose proof (graded_try _ "Action execution failed: " ag
                (graded_dispatch pg action ag Hc Hf)) as Hg.
  rewrite H in Hg. simpl in Hg.
  destruct Hg as [[Hclean Hst] | (e & Hfault & Hst & _)].
  - apply clean_not_has_fault in Hclean. rewrite Hst.
    intuition (try discriminate).
  - apply faulted_has_fault in Hfault. rewrite Hst.
    intuition (try discriminate).
Qed.

Lemma execute_action_status_witness :
  r_status
    {| r_status := ERROR;
       r_message := "Navigation failed: net::ERR_NAME_NOT_RESOLVED" |} = ERROR
  <-> has_fault [{| ev_call := Goto "https://example.com";
                    ev_fault := Some "net::ERR_NAME_NOT_RESOLVED" |}].
Proof.
  exact (proj1 (proj2 (proj2
           (execute_action_status offline_page "NAVIGATE https://example.com"
              new_agent _ _ _ eq_refl)))).
Defined.

(** ** More on the decision step *)

Lemma frames_determine_action env task page_content :
  frames (determine_action env task page_content).
Proof.
  unfold determine_action, first_choice. frame.
Qed.

Lemma determine_action_late env task page_content ag action ag' l :
  8 <= step_count ag ->
  determine_action env task page_content ag = (Ok action, ag', l) ->
  PyStr.contains "TASK_COMPLETE" action = true
  \/ PyStr.contains "TASK_FAILED" action = true.
Proof.
  intros Hn. apply Z.leb_le in Hn.
  unfold determine_action, bind, perform, get, try_except.
  destruct (env_visible_text env) as [vt|e]; [|discriminate].
  destruct (env_interactive_elements env) as [els|e]; [|discriminate].
  destruct (env_chat_completion env _) as [[|[content|] others]|e];
    cbn [first_choice ret raise]; rewrite ?Hn;
    try (intros H; inversion H; subst; right; reflexivity).
  destruct (PyStr.contains "TASK_COMPLETE" (PyStr.strip content)) eqn:Hc;
    destruct (PyStr.contains "TASK_FAILED" (PyStr.strip content)) eqn:Hf;
    cbn; intros H; inversion H; subst; auto.
Qed.

(** From step count 8 on, every directive the decision step returns holds
    one of the two markers, whatever the model answered. *)
Theorem late_decisions_hold_a_marker env task page_content ag action ag' l :
  8 <= step_count ag ->
  determine_action env task page_content ag = (Ok action, ag', l) ->
  PyStr.contains "TASK_COMPLETE" action = true
  \/ PyStr.contains "TASK_FAILED" action = true.
Proof. exact (determine_action_late env task page_content ag action ag' l). Qed.

Lemma late_decisions_hold_a_marker_witness :
  PyStr.contains "TASK_COMPLETE" "TASK_COMPLETE" = true
  \/ PyStr.contains "TASK_FAILED" "TASK_COMPLETE" = true.
Proof.
  apply (late_decisions_hold_a_marker (answering "CLICK link 'Next'" empty_page)
           "find" "<html></html>" (set_step_count 8 new_agent) "TASK_COMPLETE"
           (set_step_count 8 new_agent)
           (snd (determine_action (answering "CLICK link 'Next'" empty_page)
                   "find" "<html></html>" (set_step_count 8 new_agent))));
    [vm_compute; discriminate | reflexivity].
Defined.

Lemma length_slice_to n : forall s, (String.length (PyStr.slice_to n s) <= n)%nat.
Proof.
  induction n as [|n IH]; intros [|c s]; simpl; try lia.
  specialize (IH s). lia.
Qed.

(** The model is asked at most once in a decision step, and the prompt it
    gets is built from the task and the agent, with at most 1500 characters
    of page text and at most 15 elements. *)
Theorem prompt_is_bounded env task page_content ag out ag' l :
  determine_action env task page_content ag = (out, ag', l) ->
  (forall p fault, In {| ev_call := ChatCompletion p; ev_fault := fault |} l ->
     p_task p = task /\ p_step_count p = step_count ag
     /\ p_current_url p = current_url ag
     /\ (String.length (p_visible_text p) <= 1500)%nat
     /\ (List.length (p_interactive_elements p) <= 15)%nat)
  /\ (List.length
        (filter (fun ev => match ev_call ev with ChatCompletion _ => true | _ => false end)
           l) <= 1)%nat.
Proof.
  unfold determine_action, bind, perform, get, try_except.
  destruct (env_visible_text env) as [vt|e].
  2:{ intros H; inversion H; subst. split; [|simpl; lia].
      intros p f [Hin|[]]. discriminate. }
  destruct (env_interactive_elements env) as [els|e].
  2:{ intros H; inversion H; subst. split; [|simpl; lia].
      intros p f [Hin|[Hin|[]]]; discriminate. }
  assert (Hp : forall p, p = build_prompt task ag vt els ->
     p_task p = task /\ p_step_count p = step_count ag
     /\ p_current_url p = current_url ag
     /\ (String.length (p_visible_text p) <= 1500)%nat
     /\ (List.length (p_interactive_elements p) <= 15)%nat).
  { intros p ->. unfold build_prompt. cbn [p_task p_step_count p_current_url
      p_visible_text p_interactive_elements].
    repeat split; [apply length_slice_to | apply firstn_le_length]. }
  destruct (env_chat_completion env _) as [[|[content|] others]|e];
    cbn [first_choice ret raise];
    try destruct (_ && _);
    intros H; inversion H; subst; (split; [|simpl; lia]);
    intros p f Hin; simpl in Hin;
    repeat (destruct Hin as [Hin|Hin]; try discriminate; try contradiction);
    inversion Hin; apply Hp; reflexivity.
Qed.

(** ** One step of the agent *)

Lemma frames_eq {A} (m : M A) s r s' l : frames m -> m s = (r, s', l) -> s' = s.
Proof. intros Hf E. specialize (Hf s). rewrite E in Hf. exact Hf. Qed.

Lemma frames_take_screenshot shot : frames (take_screenshot shot).
Proof. unfold take_screenshot. frame. Qed.

(** A step that returns: the page was open, the step count has grown by
    one and is the [step] of the result, and the result carries the
    directive of the decision step with the status and message the executor
    gave for it. *)
Lemma execute_task_ok env task ag result ag' l :
  execute_task env task ag = (Ok result, ag', l) ->
  page_open ag = true
  /\ exists page_content action la resp agx lx,
       determine_action env task page_content ag = (Ok action, ag, la)
       /\ execute_action (env_page env) action ag = (Ok resp, agx, lx)
       /\ ag' = set_step_count (step_count ag + 1) agx
       /\ tr_step result = step_count ag + 1
       /\ tr_action result = action
       /\ tr_url result = current_url agx
       /\ tr_status result = r_status resp
       /\ tr_message result = r_message resp.
Proof.
  unfold execute_task. intros H.
  apply bind_ok in H. destruct H as (open & s0 & l0 & l0' & H0 & H & ->).
  unfold get in H0. injection H0 as <- <- <-.
  destruct (page_open ag) eqn:Hopen; cbn [negb] in H; [|discriminate].
  split; [reflexivity|].
  apply bind_ok in H. destruct H as (shot & s1 & l1 & l1' & H1 & H & ->).
  pose proof (frames_eq _ _ _ _ _ (frames_take_screenshot _) H1) as ->.
  apply bind_ok in H. destruct H as (pc & s2 & l2 & l2' & H2 & H & ->).
  pose proof (frames_eq _ _ _ _ _ (frames_perform _ _) H2) as ->.
  apply bind_ok in H. destruct H as (action & s3 & l3 & l3' & H3 & H & ->).
  pose proof (frames_eq _ _ _ _ _ (frames_determine_action _ _ _) H3) as ->.
  apply bind_ok in H. destruct H as (resp & s4 & l4 & l4' & H4 & H & ->).
  apply bind_ok in H. destruct H as (u & s5 & l5 & l5' & H5 & H & ->).
  unfold modify in H5. injection H5 as <- <- <-.
  apply bind_ok in H. destruct H as (n & s6 & l6 & l6' & H6 & H & ->).
  unfold get in H6. injection H6 as <- <- <-.
  apply bind_ok in H. destruct H as (url & s7 & l7 & l7' & H7 & H & ->).
  unfold get in H7. injection H7 as <- <- <-.
  apply bind_ok in H. destruct H as (shot' & s8 & l8 & l8' & H8 & H & ->).
  pose proof (frames_eq _ _ _ _ _ (frames_take_screenshot _) H8) as ->.
  unfold ret in H. injection H as <- <- <-.
  destruct (execute_action_keeps (env_page env) action ag) as (Hsc & _).
  rewrite H4 in Hsc. cbn in Hsc.
  exists pc, action, l3, resp, s4, l4.
  split; [exact H3|]. split; [exact H4|].
  cbn. rewrite Hsc. repeat split.
Qed.

(** ** The ceiling on the number of steps *)

Lemma prefix_map f m : forall s,
  String.prefix m s = true ->
  String.prefix (PyStr.map_chars f m) (PyStr.map_chars f s) = true.
Proof.
  induction m as [|c m IH]; intros s H; [destruct s; reflexivity|].
  destruct s as [|d s]; [discriminate|].
  apply prefix_cons_inv in H. destruct H as [<- H].
  cbn [PyStr.map_chars]. rewrite prefix_cons. auto.
Qed.

Lemma contains_map f m s :
  PyStr.contains m s = true ->
  PyStr.contains (PyStr.map_chars f m) (PyStr.map_chars f s) = true.
Proof.
  induction s as [|c s IH]; cbn [PyStr.contains PyStr.map_chars]; intros H.
  - apply (prefix_map f m EmptyString H).
  - apply orb_true_iff in H. apply orb_true_iff. destruct H as [H|H].
    + left. apply (prefix_map f m (String c s) H).
    + right. auto.
Qed.

(** A directive that holds a marker ends the session without touching the
    page. *)
Lemma marker_directive pg action ag :
  PyStr.contains "TASK_COMPLETE" action = true
  \/ PyStr.contains "TASK_FAILED" action = true ->
  exists resp,
    execute_action pg action ag = (Ok resp, ag, [])
    /\ (r_status resp = COMPLETE \/ r_status resp = FAILED).
Proof.
  intros H. unfold execute_action, dispatch.
  destruct (PyStr.contains "TASK_COMPLETE" (PyStr.upper action)) eqn:Hc.
  { eexists. split; [reflexivity | left; reflexivity]. }
  destruct H as [H|H].
  - apply (contains_map PyStr.upper_char) in H.
    change (PyStr.map_chars PyStr.upper_char "TASK_COMPLETE") with "TASK_COMPLETE" in H.
    unfold PyStr.upper in Hc. congruence.
  - apply (contains_map PyStr.upper_char) in H.
    change (PyStr.map_chars PyStr.upper_char "TASK_FAILED") with "TASK_FAILED" in H.
    unfold PyStr.upper. rewrite H.
    eexists. split; [reflexivity | right; reflexivity].
Qed.

(** The check for repeated actions never turns a final status into
    CONTINUE. *)
Lemma check_repeated_keeps_end last rep result r la ra :
  check_repeated last rep result = (r, la, ra) ->
  tr_status result = COMPLETE \/ tr_status result = FAILED ->
  tr_status r = COMPLETE \/ tr_status r = FAILED.
Proof.
  intros H Hst. apply check_repeated_spec in H. cbv zeta in H.
  destruct H as (_ & _ & _ & _ & H).
  destruct (_ && _) in H; [inversion H; auto|].
  destruct (_ && _) in H; inversion H; auto.
  rewrite H1. exact Hst.
Qed.

(** With step count 8 or more the iteration is the last one. *)
Lemma late_iteration_stops env task ls ls' stop :
  8 <= step_count (ls_agent ls) ->
  loop_body env task ls = (ls', stop) -> ls_status ls' <> CONTINUE.
Proof.
  intros Hn. unfold loop_body.
  destruct (execute_task env task (ls_agent ls)) as [[[result|e] ag'] l] eqn:E.
  - destruct (execute_task_ok _ _ _ _ _ _ E)
      as (_ & pc & action & la & resp & agx & lx & Hd & Hx & _ & _ & _ & _ & Hst & _).
    apply (determine_action_late _ _ _ _ _ _ _ Hn) in Hd.
    destruct (marker_directive (env_page env) action (ls_agent ls) Hd)
      as (resp' & Hx' & Hend).
    rewrite Hx in Hx'. injection Hx' as <- _ _.
    rewrite <- Hst in Hend.
    destruct (check_repeated _ _ result) as [[r la'] ra] eqn:Hcr.
    pose proof (check_repeated_keeps_end _ _ _ _ _ _ Hcr Hend) as Hr.
    intros H. inversion H; subst. cbn. destruct Hr as [Hr|Hr]; rewrite Hr; discriminate.
  - intros H. inversion H; subst. cbn. discriminate.
Qed.

Lemma in_step_body max_steps env task ls ls' stop :
  in_step ls -> loop_condition max_steps ls = true ->
  loop_body env task ls = (ls', stop) -> in_step ls'.
Proof.
  intros (Hle & Hcont) Hc Hb.
  apply loop_condition_true in Hc. destruct Hc as [Hst _].
  destruct (Hcont Hst) as [Hsc H8].
  pose proof (loop_body_cases _ _ _ _ _ Hb) as (_ & Hit & _ & _).
  split; [rewrite Hit; lia|].
  intros Hst'. rewrite Hit.
  assert (Hlate : ~ 8 <= step_count (ls_agent ls)).
  { intros Hn. exact (late_iteration_stops _ _ _ _ _ Hn Hb Hst'). }
  split; [|lia].
  unfold loop_body in Hb.
  destruct (execute_task env task (ls_agent ls)) as [[[result|e] ag'] l] eqn:E.
  - destruct (execute_task_ok _ _ _ _ _ _ E)
      as (_ & pc & action & la & resp & agx & lx & _ & Hx & Hag & _).
    destruct (execute_action_keeps (env_page env) action (ls_agent ls)) as (Hk & _).
    rewrite Hx in Hk. cbn in Hk.
    destruct (check_repeated _ _ result) as [[r la'] ra].
    inversion Hb; subst. cbn. lia.
  - inversion Hb; subst. cbn in Hst'. discriminate.
Qed.

Lemma in_step_while max_steps envs task ls :
  in_step ls -> in_step (while_loop envs task max_steps ls).
Proof.
  apply while_loop_preserves. intros. eapply in_step_body; eauto.
Qed.

Lemma preserves_frames {A B} (f : agent -> B) (m : M A) : frames m -> preserves f m.
Proof. intros H s. rewrite H. reflexivity. Qed.

Lemma preserves_modify {B} (f : agent -> B) g :
  (forall s, f (g s) = f s) -> preserves f (modify g).
Proof. intros H s. apply H. Qed.

Lemma preserves_bind {A B C} (f : agent -> C) (m : M A) (k : A -> M B) :
  preserves f m -> (forall a, preserves f (k a)) -> preserves f (bind m k).
Proof.
  intros Hm Hk s. unfold bind. specialize (Hm s).
  destruct (m s) as [[[a|e] s1] l1]; simpl in *; [|exact Hm].
  specialize (Hk a s1). destruct (k a s1) as [[r s2] l2]. simpl in *. congruence.
Qed.

Lemma create_session_step_count se url :
  preserves step_count (create_session se url).
Proof.
  unfold create_session, goto, wait_for_timeout. cbv zeta.
  repeat first
    [ apply preserves_bind; [|intros ?]
    | apply preserves_modify; intros; reflexivity
    | apply preserves_frames; first [apply frames_take_screenshot | solve [frame]]
    | match goal with |- preserves _ (if ?b then _ else _) => destruct b end ].
Qed.

Lemma total_steps_bound w url task max_steps task' url' steps final_status
    total_steps :
  autonomous_process w url task max_steps
    = Ok (Success task' url' steps final_status total_steps) ->
  total_steps <= 9 /\ total_steps <= Z.max 0 max_steps
  /\ (List.length steps <= 10)%nat.
Proof.
  intros H.
  pose proof (autonomous_process_cases w url task max_steps) as Hc.
  pose proof (create_session_step_count (w_session w) url new_agent) as Hsc.
  destruct (create_session (w_session w) url new_agent) as [[[s|e] ag] l].
  2:{ rewrite Hc in H. destruct (w_close w); discriminate. }
  cbv zeta in Hc. rewrite Hc in H. destruct (w_close w); [|discriminate].
  injection H as _ _ Hsteps _ Htotal. subst steps total_steps.
  cbn in Hsc.
  destruct (sound_while max_steps (w_steps w) task _
              (sound_initial max_steps url s ag)) as (Hlen & Hbound & _).
  assert (Hin : in_step (initial_state url s ag)).
  { split; cbn; [lia|]. intros _. split; [exact Hsc | lia]. }
  apply (in_step_while max_steps (w_steps w) task) in Hin.
  destruct Hin as [H9 _].
  fold (session_loop w url task max_steps s ag) in Hlen, Hbound, H9.
  rewrite Hlen. lia.
Qed.

(** However large [max_steps] is, a session runs at most nine steps: the
    ninth decision is taken with step count 8 and ends the loop. *)
Theorem at_most_nine_steps w url task max_steps task' url' steps final_status
    total_steps :
  autonomous_process w url task max_steps
    = Ok (Success task' url' steps final_status total_steps) ->
  total_steps <= 9 /\ total_steps <= Z.max 0 max_steps
  /\ (List.length steps <= 10)%nat.
Proof. apply total_steps_bound. Qed.

Lemma at_most_nine_steps_witness :
  let steps :=
    match autonomous_process restless "https://example.com" "find" 20 with
    | Ok (Success _ _ steps _ _) => steps
    | _ => []
    end in
  9 <= 9 /\ 9 <= Z.max 0 20 /\ (List.length steps <= 10)%nat.
Proof.
  exact (at_most_nine_steps restless "https://example.com" "find" 20
           "find" "https://example.com" _ COMPLETE 9 eq_refl).
Defined.

(** ** The shape of the trace *)

Lemma numbered_initial url s ag : numbered (initial_state url s ag).
Proof.
  split; cbn; [|reflexivity].
  intros [|[|i]] r H; cbn in H; inversion H; reflexivity.
Qed.

Lemma numbered_body max_steps env task ls ls' stop :
  numbered ls -> loop_condition max_steps ls = true ->
  loop_body env task ls = (ls', stop) -> numbered ls'.
Proof.
  intros (Hnum & Hstep) Hc Hb.
  apply loop_condition_true in Hc. destruct Hc as [Hst _]. specialize (Hstep Hst).
  apply loop_body_cases in Hb.
  destruct Hb as (_ & _ & (r' & Hsteps & _ & Hn) & Hnext).
  split.
  - intros i r. rewrite Hsteps. intros H.
    destruct (Nat.lt_ge_cases i (List.length (ls_steps ls))) as [Hlt|Hge].
    + rewrite nth_error_app1 in H by exact Hlt. auto.
    + rewrite nth_error_app2 in H by exact Hge.
      destruct (i - List.length (ls_steps ls))%nat as [|k] eqn:E; cbn in H.
      * inversion H; subst. rewrite Hn, Hstep. f_equal. lia.
      * destruct k; discriminate.
  - intros Hst'. rewrite (Hnext Hst'), Hsteps, length_app, Hstep. cbn. lia.
Qed.

Lemma first_record_body env task ls ls' stop first :
  hd_error (ls_steps ls) = Some first ->
  loop_body env task ls = (ls', stop) -> hd_error (ls_steps ls') = Some first.
Proof.
  intros H Hb. apply loop_body_cases in Hb.
  destruct Hb as (_ & _ & (r' & -> & _) & _).
  destruct (ls_steps ls); [discriminate | exact H].
Qed.

(** The trace of a run starts with the record of the session start, for the
    URL of the run, and its records are numbered 0, 1, 2, ... in order, the
    ERROR record of a failed iteration included. *)
Theorem trace_is_numbered w url task max_steps task' url' steps final_status
    total_steps :
  autonomous_process w url task max_steps
    = Ok (Success task' url' steps final_status total_steps) ->
  task' = task /\ url' = url
  /\ (exists shot, hd_error steps = Some (start_record url shot))
  /\ (forall i r, nth_error steps i = Some r -> sr_step_number r = Z.of_nat i).
Proof.
  intros H.
  pose proof (autonomous_process_cases w url task max_steps) as Hc.
  destruct (create_session (w_session w) url new_agent) as [[[s|e] ag] l].
  2:{ rewrite Hc in H. destruct (w_close w); discriminate. }
  cbv zeta in Hc. rewrite Hc in H. destruct (w_close w); [|discriminate].
  injection H as <- <- <- _ _.
  split; [reflexivity|]. split; [reflexivity|]. split.
  - exists (s_screenshot s). unfold session_loop.
    apply (while_loop_preserves
             (fun ls => hd_error (ls_steps ls) = Some (start_record url (s_screenshot s)))).
    + intros ls ls' stop Hh _ Hb. eapply first_record_body; eauto.
    + reflexivity.
  - unfold session_loop.
    apply (while_loop_preserves numbered).
    + intros ls ls' stop Hn Hcond Hb. eapply numbered_body; eauto.
    + apply numbered_initial.
Qed.

Lemma trace_is_numbered_witness :
  let steps :=
    match autonomous_process crash_at_two "https://example.com" "find" 5 with
    | Ok (Success _ _ steps _ _) => steps
    | _ => []
    end in
  "find" = "find" /\ "https://example.com" = "https://example.com"
  /\ (exists shot, hd_error steps = Some (start_record "https://example.com" shot))
  /\ (forall i r, nth_error steps i = Some r -> sr_step_number r = Z.of_nat i).
Proof.
  exact (trace_is_numbered crash_at_two "https://example.com" "find" 5
           "find" "https://example.com" _ ERROR 2 eq_refl).
Defined.

(** With [max_steps] below 1 no step is executed: the reply holds the
    start record alone, final status CONTINUE and [total_steps] 0. *)
Theorem no_budget_no_step w url task max_steps s ag l u :
  max_steps < 1 ->
  create_session (w_session w) url new_agent = (Ok s, ag, l) ->
  w_close w = Ok u ->
  autonomous_process w url task max_steps
    = Ok (Success task url [start_record url (s_screenshot s)] CONTINUE 0).
Proof.
  intros Hm Hcreate Hclose.
  pose proof (autonomous_process_cases w url task max_steps) as Hc.
  rewrite Hcreate, Hclose in Hc. cbv zeta in Hc. rewrite Hc.
  unfold session_loop. rewrite while_loop_eq.
  assert (Hcond : loop_condition max_steps (initial_state url s ag) = false).
  { unfold loop_condition. cbn. apply Z.leb_gt. lia. }
  rewrite Hcond. reflexivity.
Qed.

Lemma no_budget_no_step_witness :
  autonomous_process four_scrolls "https://example.com" "find" 0
    = Ok (Success "find" "https://example.com"
            [start_record "https://example.com" "start"] CONTINUE 0).
Proof.
  apply (no_budget_no_step four_scrolls "https://example.com" "find" 0
           example_session example_agent
           (snd (create_session good_session "https://example.com" new_agent)) tt);
    [lia | reflexivity | reflexivity].
Defined.

(** ** How long a directive can repeat *)












(** ** Which element a CLICK directive clicks *)

(** The capital letters beyond ASCII fold as in Python: the code points 192
    to 222 except 215 go up by 32, so that a target and a text that differ
    in the case of such a letter match. *)
Lemma lower_char_folds_capitals n :
  (192 <= n <= 222)%N -> n <> 215%N ->
  PyStr.lower_char (ascii_of_N n) = ascii_of_N (n + 32).
Proof.
  intros Hn H215. unfold PyStr.lower_char.
  rewrite N_ascii_embedding by lia.
  apply N.eqb_neq in H215. rewrite H215.
  destruct (N.leb_spec 192 n); [|lia]. destruct (N.leb_spec n 222); [|lia].
  rewrite orb_true_r. reflexivity.
Qed.

Lemma lower_char_keeps n :
  (n < 256)%N -> ~ (65 <= n <= 90)%N -> ~ (192 <= n <= 222)%N \/ n = 215%N ->
  PyStr.lower_char (ascii_of_N n) = ascii_of_N n.
Proof.
  intros Hn Ha Hl. unfold PyStr.lower_char.
  rewrite N_ascii_embedding by lia.
  destruct (N.leb_spec 65 n); destruct (N.leb_spec n 90);
    destruct (N.leb_spec 192 n); destruct (N.leb_spec n 222);
    destruct (N.eqb_spec n 215); cbn; try reflexivity; lia.
Qed.

Lemma click_matching_no_match pg what settle target els s :
  Forall (no_match target) els ->
  click_matching pg what settle target els s
    = (Ok None, s, map (fun el => done (TextContent el)) els).
Proof.
  induction 1 as [|el els (text & Ht & Hm) _ IH]; [reflexivity|].
  cbn [click_matching map]. unfold bind, text_content, perform.
  rewrite Ht, Hm, IH. reflexivity.
Qed.

(** A target in capitals that ends in the letter at code point 201 is
    found in a text that has the letter at code point 233 in its place:
    the first folds to the second. *)
Example latin_capitals_match :
  PyStr.contains
    (PyStr.lower ("CAF" ++ String (ascii_of_N 201) EmptyString))
    (PyStr.lower ("Caf" ++ String (ascii_of_N 233) " menu")) = true.
Proof. reflexivity. Qed.

(** The scan of a CLICK directive clicks the first element whose text
    holds the target, ignoring case, and no other: the texts of the
    elements before it are read, the element is clicked once, and after the
    wait the response names the target. *)
Theorem click_matching_first_match pg what settle target before el after text s :
  Forall (no_match target) before ->
  el_text_content el = Ok text ->
  PyStr.contains (PyStr.lower target) (PyStr.lower text) = true ->
  el_click el = Ok tt ->
  pg_wait_for_timeout pg settle = Ok tt ->
  click_matching pg what settle target (before ++ el :: after) s
    = (Ok (Some {| r_status := CONTINUE;
                   r_message := "Clicked " ++ what ++ ": " ++ target |}),
       s,
       (map (fun x => done (TextContent x)) before
        ++ [done (TextContent el); done (Click el); done (WaitForTimeout settle)])%list).
Proof.
  intros Hbefore Ht Hm Hclick Hwait.
  induction Hbefore as [|x before (tx & Htx & Hmx) _ IH].
  - cbn [app click_matching map].
    unfold bind, text_content, click, wait_for_timeout, perform, ret.
    rewrite Ht, Hm, Hclick, Hwait. reflexivity.
  - cbn [app click_matching map]. unfold bind at 1. unfold text_content, perform.
    rewrite Htx, Hmx, IH. reflexivity.
Qed.

Lemma click_matching_first_match_witness :
  click_matching empty_page "button" 2000 "Submit"
    ([ok_element "Cancel"] ++ ok_element " submit form " :: [ok_element "Submit"])
    new_agent
  = (Ok (Some {| r_status := CONTINUE; r_message := "Clicked button: Submit" |}),
     new_agent,
     (map (fun x => done (TextContent x)) [ok_element "Cancel"]
      ++ [done (TextContent (ok_element " submit form "));
          done (Click (ok_element " submit form "));
          done (WaitForTimeout 2000)])%list).
Proof.
  apply (click_matching_first_match empty_page "button" 2000 "Submit"
           [ok_element "Cancel"] (ok_element " submit form ")
           [ok_element "Submit"] " submit form " new_agent);
    try reflexivity.
  constructor; [|constructor]. exists "Cancel". split; reflexivity.
Defined.

(** When the target text is found on no button, the executor clicks the
    first button of the page instead and says so. *)
Theorem click_button_falls_back pg target buttons first s :
  pg_query_selector_all pg "button" = Ok buttons ->
  Forall (no_match target) buttons ->
  pg_query_selector pg "button" = Ok (Some first) ->
  el_click first = Ok tt ->
  pg_wait_for_timeout pg 2000 = Ok tt ->
  click_button pg (Some target) s
    = (Ok {| r_status := CONTINUE; r_message := "Clicked first button" |}, s,
       (done (QuerySelectorAll "button")
        :: map (fun el => done (TextContent el)) buttons
        ++ [done (QuerySelector "button"); done (Click first);
            done (WaitForTimeout 2000)])%list).
Proof.
  intros Hall Hnone Hfirst Hclick Hwait.
  unfold click_button. unfold bind at 1. unfold bind at 1.
  unfold query_selector_all at 1. unfold perform at 1. rewrite Hall.
  rewrite (click_matching_no_match _ _ _ _ _ _ Hnone).
  unfold bind, query_selector, click, wait_for_timeout, perform, ret.
  rewrite Hfirst, Hclick, Hwait. reflexivity.
Qed.

Lemma click_button_falls_back_witness :
  let pg :=
    {| pg_query_selector_all := fun _ => Ok [ok_element "Cancel"];
       pg_query_selector := fun _ => Ok (Some (ok_element "Cancel"));
       pg_wait_for_timeout := fun _ => Ok tt;
       pg_scroll_by := fun _ => Ok tt;
       pg_goto := fun _ => Ok tt;
       pg_keyboard_press := fun _ => Ok tt |} in
  fst (fst (click_button pg (Some "Submit") new_agent))
  = Ok {| r_status := CONTINUE; r_message := "Clicked first button" |}.
Proof.
  intros pg.
  assert (Hnone : Forall (no_match "Submit") [ok_element "Cancel"]).
  { constructor; [|constructor]. exists "Cancel". split; reflexivity. }
  rewrite (click_button_falls_back pg "Submit" [ok_element "Cancel"]
             (ok_element "Cancel") new_agent eq_refl Hnone
             eq_refl eq_refl eq_refl).
  reflexivity.
Defined.

(** ** The destination of a NAVIGATE directive *)

Lemma append_empty_r s : s ++ EmptyString = s.
Proof. induction s as [|c s IH]; cbn; [reflexivity | rewrite IH; reflexivity]. Qed.

Lemma append_assoc3 a b c : (a ++ b) ++ c = a ++ (b ++ c).
Proof. induction a as [|x a IH]; cbn; [reflexivity | rewrite IH; reflexivity]. Qed.

Lemma length_append a b :
  String.length (a ++ b) = (String.length a + String.length b)%nat.
Proof. induction a as [|x a IH]; cbn; [reflexivity | rewrite IH; reflexivity]. Qed.

Lemma prefix_empty_l s : String.prefix EmptyString s = true.
Proof. destruct s; reflexivity. Qed.

(** Whether a text starts with [m] is decided by its first characters. *)
Lemma prefix_app_long m : forall a b,
  (String.length m <= String.length a)%nat ->
  String.prefix m (a ++ b) = String.prefix m a.
Proof.
  induction m as [|x m IH]; intros a b Hlen.
  - destruct a, b; reflexivity.
  - destruct a as [|y a]; cbn in Hlen; [lia|].
    cbn [append String.prefix]. destruct (ascii_dec x y); [|reflexivity].
    apply IH. lia.
Qed.

(** No "http" starts within [before] when [before] is followed by "http". *)
Lemma no_http_at_head c before rest :
  PyStr.contains "http" (String c before ++ "htt") = false ->
  String.prefix "http" (String c (before ++ "http" ++ rest)) = false
  /\ PyStr.contains "http" (before ++ "htt") = false.
Proof.
  intros H.
  change (String c before ++ "htt") with (String c (before ++ "htt")) in H.
  cbn [PyStr.contains] in H. apply orb_false_iff in H.
  destruct H as [Hp Hc]. split; [|exact Hc].
  assert (E : String c (before ++ "http" ++ rest)
              = String c (before ++ "htt") ++ ("p" ++ rest)).
  { cbn [append]. f_equal. rewrite append_assoc3. reflexivity. }
  rewrite E, prefix_app_long; [exact Hp|].
  cbn [String.length]. rewrite length_append. cbn. lia.
Qed.

Lemma split_go_first_http before : forall cur rest,
  PyStr.contains "http" (before ++ "htt") = false ->
  PyStr.split_go "http" 0 cur (before ++ "http" ++ rest)
  = (cur ++ before) :: PyStr.split_go "http" 0 EmptyString rest.
Proof.
  induction before as [|c before IH]; intros cur rest H.
  - cbn. rewrite prefix_empty_l, append_empty_r. reflexivity.
  - destruct (no_http_at_head c before rest H) as [Hp Hc].
    change (String c before ++ "http" ++ rest)
      with (String c (before ++ "http" ++ rest)).
    cbn [PyStr.split_go]. rewrite Hp, (IH _ _ Hc).
    unfold PyStr.snoc. rewrite append_assoc3. reflexivity.
Qed.

Lemma split_go_no_separator sep rest : forall cur,
  PyStr.contains sep rest = false ->
  PyStr.split_go sep 0 cur rest = [cur ++ rest].
Proof.
  induction rest as [|c rest IH]; intros cur H.
  - cbn. rewrite append_empty_r. reflexivity.
  - cbn [PyStr.contains] in H. apply orb_false_iff in H. destruct H as [Hp Hc].
    cbn [PyStr.split_go]. rewrite Hp, (IH _ Hc).
    unfold PyStr.snoc. rewrite append_assoc3. reflexivity.
Qed.

Lemma spec_from_first_http before : forall rest,
  PyStr.contains "http" (before ++ "htt") = false ->
  spec_from_first "http" (before ++ "http" ++ rest) = "http" ++ rest.
Proof.
  induction before as [|c before IH]; intros rest H.
  - cbn. rewrite prefix_empty_l. reflexivity.
  - destruct (no_http_at_head c before rest H) as [Hp Hc].
    change (String c before ++ "http" ++ rest)
      with (String c (before ++ "http" ++ rest)).
    cbn [spec_from_first]. rewrite Hp. auto.
Qed.

(** For a directive with one "http", followed by [rest]: the destination
    the executor computes is "http" followed by [rest], the text of the
    directive from "http" onward, unless [rest] starts with "://"; then it
    is [rest] alone, without the scheme.  So only a plain http:// URL is
    mangled; https:// URLs are navigated to as written. *)
Theorem navigate_url_one_http before rest :
  PyStr.contains "http" (before ++ "htt") = false ->
  PyStr.contains "http" rest = false ->
  let action := before ++ "http" ++ rest in
  PyStr.contains "http" action = true
  /\ spec_destination action = "http" ++ rest
  /\ navigate_url action
     = (if PyStr.startswith "://" rest then rest else "http" ++ rest)
  /\ (navigate_url action = spec_destination action
      <-> PyStr.startswith "://" rest = false).
Proof.
  intros Hb Hr action.
  assert (Hs : spec_destination action = "http" ++ rest)
    by (apply spec_from_first_http; exact Hb).
  assert (Hn : navigate_url action
               = (if PyStr.startswith "://" rest then rest else "http" ++ rest)).
  { unfold navigate_url, PyStr.split, action.
    rewrite (split_go_first_http _ _ _ Hb), (split_go_no_separator _ _ _ Hr).
    cbn [PyStr.item1 nth append].
    destruct (PyStr.startswith "://" rest); reflexivity. }
  split; [|split; [exact Hs | split; [exact Hn|]]].
  - subst action. clear -Hb. induction before as [|c before IH].
    { cbn. rewrite prefix_empty_l. reflexivity. }
    change (String c before ++ "http" ++ rest)
      with (String c (before ++ "http" ++ rest)).
    cbn [PyStr.contains].
    destruct (no_http_at_head c before rest Hb) as [_ Hc].
    rewrite (IH Hc). apply orb_true_r.
  - rewrite Hn, Hs. destruct (PyStr.startswith "://" rest).
    + split; [|discriminate]. intros H.
      apply (f_equal String.length) in H. cbn in H. lia.
    + split; reflexivity.
Qed.

Lemma navigate_url_one_http_witness :
  navigate_url ("NAVIGATE " ++ "http" ++ "s://example.com/courses")
  = "https://example.com/courses".
Proof.
  exact (proj1 (proj2 (proj2
           (navigate_url_one_http "NAVIGATE " "s://example.com/courses"
              eq_refl eq_refl)))).
Defined.

(** ** Creating a session *)

(** A session that has been created: the session and the agent name the
    URL asked for, the session identifier is built from the clock, the page
    is open, the screenshot is the one just taken, and the step count is
    untouched.  A browser is launched only when the agent had no page. *)
Theorem create_session_ok se url ag s ag' l :
  create_session se url ag = (Ok s, ag', l) ->
  s_url s = url /\ s_status s = CONTINUE
  /\ s_session_id s = "session_" ++ decimal (se_time se)
  /\ page_open ag' = true
  /\ current_url ag' = Some url
  /\ session_id ag' = Some (s_session_id s)
  /\ screenshot ag' = Some (s_screenshot s)
  /\ step_count ag' = step_count ag
  /\ (In (done LaunchBrowser) l <-> page_open ag = false).
Proof.
  unfold create_session, bind, get, perform, modify, take_screenshot, goto,
    wait_for_timeout, ret.
  destruct (page_open ag) eqn:Hopen; cbn.
  - destruct (pg_goto (se_page se) url); [|discriminate]. cbn.
    destruct (pg_wait_for_timeout (se_page se) 2000); [|discriminate]. cbn.
    rewrite Hopen. cbn.
    destruct (se_screenshot se); [|discriminate]. cbn.
    intros H. inversion H; subst; cbn. repeat split; try assumption; try discriminate.
    intros [Hin|[Hin|[Hin|[]]]]; discriminate.
  - destruct (se_launch se); [|discriminate]. cbn.
    destruct (pg_goto (se_page se) url); [|discriminate]. cbn.
    destruct (pg_wait_for_timeout (se_page se) 2000); [|discriminate]. cbn.
    destruct (se_screenshot se); [|discriminate]. cbn.
    intros H. inversion H; subst; cbn. repeat split; try reflexivity.
    left. reflexivity.
Qed.

Lemma create_session_ok_witness :
  current_url example_agent = Some "https://example.com"
  /\ page_open example_agent = true
  /\ step_count example_agent = 0.
Proof.
  destruct (create_session_ok good_session "https://example.com" new_agent
              example_session example_agent
              (snd (create_session good_session "https://example.com" new_agent))
              eq_refl)
    as (_ & _ & _ & Hopen & Hurl & _ & _ & Hcount & _).
  repeat split; assumption.
Defined.

(** A session that could not be created: the step count is untouched, and
    [current_url] is as before unless navigation and wait had succeeded and
    it was the screenshot that raised. *)
Theorem create_session_failed se url ag e ag' l :
  create_session se url ag = (Raise e, ag', l) ->
  step_count ag' = step_count ag
  /\ (current_url ag' = current_url ag /\ session_id ag' = session_id ag
      \/ (current_url ag' = Some url /\ se_screenshot se = Raise e
          /\ exists u v, pg_goto (se_page se) url = Ok u
                         /\ pg_wait_for_timeout (se_page se) 2000 = Ok v)).
Proof.
  unfold create_session, bind, get, perform, modify, take_screenshot, goto,
    wait_for_timeout, ret.
  destruct (page_open ag) eqn:Hopen; cbn.
  - destruct (pg_goto (se_page se) url);
      [|intros H; inversion H; subst; cbn; split; [reflexivity | left; split; reflexivity]]. cbn.
    destruct (pg_wait_for_timeout (se_page se) 2000);
      [|intros H; inversion H; subst; cbn; split; [reflexivity | left; split; reflexivity]]. cbn.
    rewrite Hopen. cbn.
    destruct (se_screenshot se); [discriminate|]. cbn.
    intros H. inversion H; subst; cbn. split; [reflexivity|]. right.
    split; [reflexivity|]. split; [reflexivity|]. do 2 eexists. split; reflexivity.
  - destruct (se_launch se);
      [|intros H; inversion H; subst; cbn; split; [reflexivity | left; split; reflexivity]]. cbn.
    destruct (pg_goto (se_page se) url);
      [|intros H; inversion H; subst; cbn; split; [reflexivity | left; split; reflexivity]]. cbn.
    destruct (pg_wait_for_timeout (se_page se) 2000);
      [|intros H; inversion H; subst; cbn; split; [reflexivity | left; split; reflexivity]]. cbn.
    destruct (se_screenshot se); [discriminate|]. cbn.
    intros H. inversion H; subst; cbn. split; [reflexivity|]. right.
    split; [reflexivity|]. split; [reflexivity|]. do 2 eexists. split; reflexivity.
Qed.

Lemma create_session_failed_witness :
  let se := {| se_launch := Ok tt; se_page := offline_page;
               se_time := 1700000000; se_screenshot := Ok "start" |} in
  current_url (snd (fst (create_session se "https://example.com" new_agent))) = None.
Proof.
  intros se.
  destruct (create_session_failed se "https://example.com" new_agent
              "net::ERR_NAME_NOT_RESOLVED"
              (snd (fst (create_session se "https://example.com" new_agent)))
              (snd (create_session se "https://example.com" new_agent)) eq_refl)
    as (_ & [[H _] | (_ & H & _)]); [exact H | discriminate].
Defined.

(** ** The HTTP endpoint *)

Lemma normalize_url_scheme url :
  PyStr.startswith "http://" (normalize_url url)
  || PyStr.startswith "https://" (normalize_url url) = true.
Proof.
  unfold normalize_url.
  destruct (PyStr.startswith "http://" url || PyStr.startswith "https://" url) eqn:E;
    cbn [negb]; [exact E|].
  unfold PyStr.startswith. cbn. apply prefix_empty_l.
Qed.

Lemma api_key_of_not_empty getenv : PyStr.is_empty (api_key_of getenv) = false.
Proof.
  unfold api_key_of. destruct getenv as [[|c k]|]; reflexivity.
Qed.

(** The endpoint, with the test that can never fire removed. *)
Lemma autonomous_task_eq getenv w data :
  autonomous_task getenv w data =
  let url := PyStr.strip (get_or (rq_url data) EmptyString) in
  let task := get_or (rq_task data) EmptyString in
  if PyStr.is_empty url || PyStr.is_empty task
  then (ErrorBody "URL and task are required", 400)
  else
    match autonomous_process w (normalize_url url) task
            (get_or (rq_max_steps data) 5) with
    | Ok result => (ReplyBody result, 200)
    | Raise e => (ErrorBody ("Autonomous task failed: " ++ e), 500)
    end.
Proof.
  unfold autonomous_task. cbv zeta. rewrite api_key_of_not_empty. reflexivity.
Qed.

(** The endpoint on a request of the front end's shape (a JSON object
    whose [url] and [task], where present, are strings and whose
    [max_steps], where present, is an integer).  The code is 400 exactly
    when the URL, stripped, or the task is empty or missing, and then the
    browser is not used; it is 500 exactly when URL and task are there and
    closing the session raised; otherwise it is 200.  The answer that the
    API key is not configured is never given: a missing key is replaced by
    a placeholder before the test. *)
Theorem endpoint_codes getenv w data :
  let resp := autonomous_task getenv w data in
  let missing :=
    PyStr.is_empty (PyStr.strip (get_or (rq_url data) EmptyString))
    || PyStr.is_empty (get_or (rq_task data) EmptyString) in
  (snd resp = 400 <-> missing = true)
  /\ (missing = true -> resp = (ErrorBody "URL and task are required", 400))
  /\ (snd resp = 500 <-> missing = false /\ exists e, w_close w = Raise e)
  /\ (snd resp = 200 <-> missing = false /\ exists u, w_close w = Ok u)
  /\ fst resp <> ErrorBody "OpenAI API key not configured".
Proof.
  cbv zeta. rewrite autonomous_task_eq. cbv zeta.
  destruct (PyStr.is_empty (PyStr.strip (get_or (rq_url data) EmptyString))
            || PyStr.is_empty (get_or (rq_task data) EmptyString)).
  { cbn. repeat split; try discriminate; try tauto;
      intros [H _]; discriminate. }
  set (url := normalize_url _). set (task := get_or (rq_task data) _).
  set (max_steps := get_or (rq_max_steps data) 5).
  pose proof (autonomous_process_cases w url task max_steps) as Hc.
  destruct (create_session (w_session w) url new_agent) as [[[s|e] ag] l];
    cbv zeta in Hc; rewrite Hc; destruct (w_close w) as [u|e'] eqn:Hclose; cbn;
    repeat split; try discriminate; try tauto; eauto;
    try (intros [_ [x Hx]]; discriminate).
Qed.

(** A reply of the endpoint with a trace: the URL of the run starts with
    http:// or https:// (https:// is put before a URL without scheme), the
    task is the one of the request, and the run took at most nine steps, at
    most [max_steps] of them, five when the request names no [max_steps]. *)
Theorem endpoint_run getenv w data task url steps final_status total_steps code :
  autonomous_task getenv w data
    = (ReplyBody (Success task url steps final_status total_steps), code) ->
  code = 200
  /\ url = normalize_url (PyStr.strip (get_or (rq_url data) EmptyString))
  /\ PyStr.startswith "http://" url || PyStr.startswith "https://" url = true
  /\ rq_task data = Some task
  /\ total_steps <= 9
  /\ total_steps <= Z.max 0 (get_or (rq_max_steps data) 5)
  /\ (rq_max_steps data = None -> total_steps <= 5).
Proof.
  rewrite autonomous_task_eq. cbv zeta.
  destruct (PyStr.is_empty (PyStr.strip (get_or (rq_url data) EmptyString))
            || PyStr.is_empty (get_or (rq_task data) EmptyString)) eqn:Hm;
    [discriminate|].
  destruct (autonomous_process w _ _ _) as [r|e] eqn:Hrun; [|discriminate].
  intros H. injection H as -> <-.
  pose proof (autonomous_process_cases w
                (normalize_url (PyStr.strip (get_or (rq_url data) EmptyString)))
                (get_or (rq_task data) EmptyString)
                (get_or (rq_max_steps data) 5)) as Hc.
  destruct (total_steps_bound _ _ _ _ _ _ _ _ _ Hrun) as (H9 & Hmax & _).
  destruct (create_session _ _ new_agent) as [[[s|e] ag] l]; cbv zeta in Hc;
    rewrite Hc in Hrun; destruct (w_close w); try discriminate.
  injection Hrun as <- <- _ _ _.
  split; [reflexivity|]. split; [reflexivity|].
  split; [apply normalize_url_scheme|].
  split.
  - apply orb_false_iff in Hm. destruct Hm as [_ Hm].
    destruct (rq_task data) as [t|]; [reflexivity | discriminate].
  - split; [exact H9|]. split; [exact Hmax|].
    intros Hnone. rewrite Hnone in Hmax. cbn in Hmax. lia.
Qed.

Lemma endpoint_run_witness :
  let data := {| rq_url := Some "  example.com "; rq_task := Some "find";
                 rq_max_steps := None |} in
  match autonomous_task None restless data with
  | (ReplyBody (Success _ url _ _ total_steps), code) =>
      code = 200 /\ url = "https://example.com" /\ total_steps <= 5
  | _ => False
  end.
Proof.
  intros data.
  destruct (autonomous_task None restless data) as [[[t u st fs n|e]|e] c] eqn:E;
    try (vm_compute in E; discriminate).
  destruct (endpoint_run None restless data t u st fs n c E)
    as (Hc & Hu & _ & _ & _ & _ & H5).
  split; [exact Hc|]. split; [rewrite Hu; reflexivity | apply H5; reflexivity].
Defined.

Lemma prompt_is_bounded_witness :
  let l := snd (determine_action (answering "SCROLL" empty_page) "find"
                  "<html></html>" new_agent) in
  (List.length
     (filter (fun ev => match ev_call ev with ChatCompletion _ => true | _ => false end)
        l) <= 1)%nat.
Proof.
  exact (proj2 (prompt_is_bounded (answering "SCROLL" empty_page) "find"
                  "<html></html>" new_agent _ _ _ eq_refl)).
Defined.

(** ** Directives without a usable payload *)

(** A CLICK directive that names neither button nor link, a FILL directive
    with fewer than three words and a NAVIGATE directive without "http"
    return CONTINUE without a single operation on the page, and leave the
    agent as it was. *)
Theorem payloadless_directives_touch_nothing pg action ag :
  PyStr.contains "TASK_COMPLETE" (PyStr.upper action) = false ->
  PyStr.contains "TASK_FAILED" (PyStr.upper action) = false ->
  (PyStr.startswith "CLICK" (PyStr.upper action) = true
   /\ PyStr.contains "button" (PyStr.lower action) = false
   /\ PyStr.contains "link" (PyStr.lower action) = false)
  \/ (PyStr.startswith "FILL" (PyStr.upper action) = true
      /\ (List.length (PyStr.split_ws action) < 3)%nat)
  \/ (PyStr.startswith "NAVIGATE" (PyStr.upper action) = true
      /\ PyStr.contains "http" action = false) ->
  exists message,
    execute_action pg action ag
      = (Ok {| r_status := CONTINUE; r_message := message |}, ag, []).
Proof.
  intros Hc Hf H. unfold execute_action, dispatch. rewrite Hc, Hf.
  destruct H as [(Hk & Hb & Hl) | [(Hk & Hn) | (Hk & Hh)]].
  - rewrite Hk. unfold click_body. rewrite Hb, Hl. eexists. reflexivity.
  - skip_branch Hk. rewrite Hk. unfold fill_body.
    apply Nat.leb_gt in Hn. rewrite Hn. eexists. reflexivity.
  - do 3 skip_branch Hk. rewrite Hk. unfold navigate_body. rewrite Hh.
    eexists. reflexivity.
Qed.

Lemma payloadless_directives_touch_nothing_witness :
  exists message,
    execute_action offline_page "FILL email" new_agent
      = (Ok {| r_status := CONTINUE; r_message := message |}, new_agent, []).
Proof.
  apply (payloadless_directives_touch_nothing offline_page "FILL email" new_agent
           eq_refl eq_refl).
  right. left. split; [reflexivity | vm_compute; lia].
Defined.
